(** * beehive: the worker of the thread pool and the task declaration

    A shallow embedding of [src/worker.cpp] and [include/beehive/task.h].
    Every member function of [Worker] is a state transformer over a
    [World]: the worker object itself, the rest of the process that a task
    or the parent pool can touch, the monotonic clock read by the time
    counters, the trace of operations on the two process-wide objects of
    [worker.cpp], [gDumpMutex] and [std::cerr], and the history of the
    values the statistics went through. *)

From Stdlib Require Import ZArith List String Ascii Bool Lia DecimalString.
From Stdlib Require DecimalZ DecimalPos.
Import ListNotations.
Local Open Scope Z_scope.

(** ** task.h *)

Module Task.

(** [using Priority = uint8_t;] *)
Definition Priority_bits : Z := 8.
Definition Priority (p : Z) : Prop := 0 <= p < 2 ^ Priority_bits.

Definition MinPriority : Z := 0.
Definition DefaultPriority : Z := 127.
Definition MaxPriority : Z := 255.

(** The types that occur in the declaration of [class Task]. *)
Inductive Ty : Set :=
| TyPriority        (* Priority = uint8_t *)
| TyCallable        (* Callable = std::function<void()> *)
| TyPromise         (* std::promise<void> *)
| TySharedFuture.   (* std::shared_future<void> *)

Definition Ty_eqb (a b : Ty) : bool :=
  match a, b with
  | TyPriority, TyPriority | TyCallable, TyCallable
  | TyPromise, TyPromise | TySharedFuture, TySharedFuture => true
  | _, _ => false
  end.

(** The non-static data members of [class Task], in declaration order. *)
Definition data_members : list (string * Ty) :=
  [ ("mCallable"%string, TyCallable);
    ("mPromise"%string, TyPromise);
    ("mFuture"%string, TySharedFuture) ].

(** The declared constructors, each by its parameter types:
    [Task(Callable);] is the only one. *)
Definition constructors : list (list Ty) := [ [TyCallable] ].

(** "A Task carries a priority": some data member has type [Priority]. *)
Definition carries_priority : bool :=
  existsb (fun m => Ty_eqb (snd m) TyPriority) data_members.

(** "An overload sets the priority explicitly": some constructor takes a
    [Priority]. *)
Definition has_priority_overload : bool :=
  existsb (existsb (fun ty => Ty_eqb ty TyPriority)) constructors.

(** The object itself, over the three library types of its members:
    [std::function<void()>], [std::promise<void>] and
    [std::shared_future<void>]. *)
Section Object.
Variables Callable Promise SharedFuture : Type.

Record Task : Type := mkTask {
  mCallable : Callable;
  mPromise : Promise;
  mFuture : SharedFuture
}.
End Object.

End Task.

(** ** mq.h: messages and handler results, as worker.cpp uses them *)

Module Message.
(** [Message::Kind]; a message has no payload beyond its kind. *)
Inductive Kind : Set := NOP | EXIT | TASK | DUMP.
End Message.

Definition Message : Set := Message.Kind.

(** [SignalingQueue::Handler::Result] *)
Inductive Result : Set := CONTINUE | FINISH.

(** ** TimeCounter *)

Module TimeCounter.

(** Modelled from the spec: [TimeCounter] is declared outside
    [worker.cpp]. It holds a cumulative duration and the start marker of
    the open interval, absent when the counter is stopped. Times are
    readings of the monotonic clock in milliseconds. *)
Record t : Set := mk { total : Z; marker : option Z }.

Definition init : t := mk 0 None.

(** Modelled from the spec: [start()] opens an interval. The spec forbids
    it on a counter that is already started and does not say what happens
    then; here the marker is overwritten. *)
Definition start (now : Z) (c : t) : t := mk (total c) (Some now).

(** Modelled from the spec: [stop()] "accumulates the elapsed interval
    into the cumulative duration and clears the start marker". A counter
    that is not started has no interval to accumulate and is left as it
    is. *)
Definition stop (now : Z) (c : t) : t :=
  match marker c with
  | Some t0 => mk (total c + (now - t0)) None
  | None => c
  end.

(** Modelled from the spec: [value()] "returns the cumulative duration
    including the currently open interval if one exists". *)
Definition value (now : Z) (c : t) : Z :=
  match marker c with
  | Some t0 => total c + (now - t0)
  | None => total c
  end.

Definition started (c : t) : bool :=
  match marker c with Some _ => true | None => false end.

End TimeCounter.

(** ** Worker::Stats and Worker::AtomicStats *)

(** The snapshot returned by [stats()]: two counters and two durations
    (their [count()] in milliseconds). *)
Record Stats : Set := mkStats {
  messages : Z;
  runs : Z;
  idle : Z;
  active : Z
}.

(** [bool Worker::Stats::operator==(const Stats& rhs) const] *)
Definition Stats_eq (s rhs : Stats) : bool :=
  (messages s =? messages rhs) &&
  (runs s =? runs rhs) &&
  (idle s =? idle rhs) &&
  (active s =? active rhs).

(** [bool Worker::Stats::operator!=(const Stats& rhs) const] *)
Definition Stats_neq (s rhs : Stats) : bool :=
  negb (Stats_eq s rhs).

Record AtomicStats : Set := mkAtomicStats {
  mMessages : Z;
  mRuns : Z;
  mIdle : TimeCounter.t;
  mActive : TimeCounter.t
}.

(** [Worker::AtomicStats::AtomicStats() = default;] with both counters at
    zero and both time counters stopped. *)
Definition AtomicStats_init : AtomicStats :=
  mkAtomicStats 0 0 TimeCounter.init TimeCounter.init.

(** ** C strings and stream output *)

Definition NUL : ascii := Ascii.zero.

(** The characters a [const char*] designates: those before the first NUL
    of the buffer it points to. *)
Fixpoint c_str (buf : string) : string :=
  match buf with
  | EmptyString => EmptyString
  | String c rest => if Ascii.eqb c NUL then EmptyString else String c (c_str rest)
  end.

(** [n[0]] of a buffer; the terminator when the buffer is empty. *)
Definition first_char (buf : string) : ascii :=
  match buf with
  | EmptyString => NUL
  | String c _ => c
  end.

(** [operator<<] applied to an integer: its decimal digits, with a leading
    minus sign when it is negative. *)
Definition show_int (z : Z) : string := NilZero.string_of_int (Z.to_int z).

(** [std::endl] *)
Definition endl : string := String (ascii_of_nat 10) EmptyString.

(** ** The process-wide objects of worker.cpp *)

(** [static std::mutex gDumpMutex;] is the only mutex of the file. *)
Inductive Mutex : Set := gDumpMutex.

(** Operations on [gDumpMutex] and [std::cerr], in the order they happen. *)
Inductive IOEvent : Set :=
| Lock (m : Mutex)
| Unlock (m : Mutex)
| Write (s : string).

(** What [std::cerr] has received along a trace. *)
Fixpoint written (tr : list IOEvent) : string :=
  match tr with
  | [] => EmptyString
  | Write s :: tr' => String.append s (written tr')
  | _ :: tr' => written tr'
  end.

(** ** Threads *)

(** The function a [std::thread] was created with; the constructor of
    [Worker] passes the lambda [[this] { this->WorkLoop(); }]. *)
Inductive ThreadEntry : Set := LambdaWorkLoop.

(** A [std::thread] as the worker sees it. *)
Inductive Thread : Set :=
| NotAThread                  (* default-constructed: represents no thread *)
| Spawned (f : ThreadEntry)   (* created, its function not yet entered *)
| Waiting                     (* inside the mailbox loop, blocked for a message *)
| Finished                    (* its function has returned, not yet joined *)
| Joined.                     (* joined: no longer joinable *)

(** Schedules of several threads: events tagged by the thread doing them. *)
Definition Tid : Set := nat.

Definition tag (i : Tid) (tr : list IOEvent) : list (Tid * IOEvent) :=
  map (pair i) tr.


(** The discipline [gDumpMutex] imposes on a schedule: a thread locks only
    a free mutex, unlocks only a mutex it holds, and every write to
    [std::cerr] in the schedule is made by the holder. *)
Fixpoint dump_schedule (holder : option Tid) (l : list (Tid * IOEvent)) : bool :=
  match l with
  | [] => true
  | (i, Lock gDumpMutex) :: l' =>
      match holder with
      | None => dump_schedule (Some i) l'
      | Some _ => false
      end
  | (i, Unlock gDumpMutex) :: l' =>
      match holder with
      | Some j => Nat.eqb i j && dump_schedule None l'
      | None => false
      end
  | (i, Write _) :: l' =>
      match holder with
      | Some j => Nat.eqb i j && dump_schedule holder l'
      | None => false
      end
  end.

(** ** worker.cpp *)

(** How far a call of the mailbox loop got: [Returned] when the loop
    returned to its caller, [Blocked] when it waits for a message that the
    mailbox does not hold yet. *)
Inductive LoopExit : Set := Returned | Blocked.

Section Worker.

(** What [worker.cpp] takes from the headers it includes. *)

(** State of the rest of the process: the parent pool with its queue and
    whatever the callables of the tasks act on. The statistics, the name
    and the thread of a worker are private members that only the functions
    below write. *)
Variable Env : Type.
(** [Pool*] *)
Variable PoolPtr : Type.
(** The non-null values of what [Pool::task()] returns. *)
Variable TaskPtr : Type.
(** [Pool::task()], the pull: [None] is the null result. *)
Variable Pool_task : PoolPtr -> Env -> option TaskPtr * Env.
(** [Task::run()]: the callable of the task acts on the world outside the
    worker. A callable that reaches back into the worker that runs it
    (renames it, sends to it) or writes to [std::cerr] is not covered. *)
Variable Task_run : TaskPtr -> Env -> Env.
(** The successive readings of the monotonic clock, in milliseconds. *)
Variable clock : nat -> Z.
(** Width of the unsigned integer type of the two atomic counters. *)
Variable counter_bits : Z.

Record Worker : Type := mkWorker {
  mParent : PoolPtr;
  mId : Z;                      (* int *)
  mName : string;               (* std::string *)
  mStats : AtomicStats;
  mMsgQueue : list Message;     (* SignalingQueue: head is the oldest message *)
  mWorkThread : Thread          (* std::thread *)
}.

Record World : Type := mkWorld {
  self : Worker;                (* *this *)
  env : Env;
  ticks : nat;                  (* clock readings taken so far *)
  trace : list IOEvent;         (* operations on gDumpMutex and std::cerr so far *)
  history : list AtomicStats    (* every value written to mStats so far, oldest first *)
}.

Definition set_self (f : Worker -> Worker) (w : World) : World :=
  mkWorld (f (self w)) (env w) (ticks w) (trace w) (history w).

Definition set_mName (n : string) (k : Worker) : Worker :=
  mkWorker (mParent k) (mId k) n (mStats k) (mMsgQueue k) (mWorkThread k).
Definition set_mStats (s : AtomicStats) (k : Worker) : Worker :=
  mkWorker (mParent k) (mId k) (mName k) s (mMsgQueue k) (mWorkThread k).
Definition set_mMsgQueue (q : list Message) (k : Worker) : Worker :=
  mkWorker (mParent k) (mId k) (mName k) (mStats k) q (mWorkThread k).
Definition set_mWorkThread (t : Thread) (k : Worker) : Worker :=
  mkWorker (mParent k) (mId k) (mName k) (mStats k) (mMsgQueue k) t.

(** *** The monad of member functions *)

Definition M (A : Type) : Type := World -> A * World.

Definition ret {A} (a : A) : M A := fun w => (a, w).

Definition bind {A B} (c : M A) (k : A -> M B) : M B :=
  fun w => let (a, w') := c w in k a w'.

Notation "x <- c ;; k" := (bind c (fun x => k))
  (at level 61, c at next level, right associativity).
Notation "c ;; k" := (bind c (fun _ => k))
  (at level 61, right associativity).

Definition exec {A} (c : M A) (w : World) : World := snd (c w).
Definition eval {A} (c : M A) (w : World) : A := fst (c w).

Definition this : M Worker := fun w => (self w, w).

Definition modify_this (f : Worker -> Worker) : M unit :=
  fun w => (tt, set_self f w).

(** One reading of the clock. *)
Definition now : M Z :=
  fun w => (clock (ticks w), mkWorld (self w) (env w) (S (ticks w)) (trace w) (history w)).

Definition emit (e : IOEvent) : M unit :=
  fun w => (tt, mkWorld (self w) (env w) (ticks w) (trace w ++ [e]) (history w)).

(** [std::unique_lock<std::mutex> lk(m)] and its destructor. *)
Definition lock (m : Mutex) : M unit := emit (Lock m).
Definition unlock (m : Mutex) : M unit := emit (Unlock m).

(** [std::cerr << s] *)
Definition cerr (s : string) : M unit := emit (Write s).

(** *** Worker::AtomicStats *)

(** [fetch_add] on an atomic of [counter_bits] bits: the stored value
    wraps around. *)
Definition fetch_add (x d : Z) : Z := (x + d) mod 2 ^ counter_bits.

(** A [TimeCounter&] into the statistics. *)
Record TimeCounterRef : Set := mkRef {
  deref : AtomicStats -> TimeCounter.t;
  assign : TimeCounter.t -> AtomicStats -> AtomicStats
}.

(** [TimeCounter& Worker::AtomicStats::active()] *)
Definition AtomicStats_active : TimeCounterRef :=
  mkRef mActive
        (fun c s => mkAtomicStats (mMessages s) (mRuns s) (mIdle s) c).

(** [TimeCounter& Worker::AtomicStats::idle()] *)
Definition AtomicStats_idle : TimeCounterRef :=
  mkRef mIdle
        (fun c s => mkAtomicStats (mMessages s) (mRuns s) c (mActive s)).

(** A write to [mStats]; the new value is appended to the history. *)
Definition modify_mStats (f : AtomicStats -> AtomicStats) : M unit :=
  fun w =>
    let s := f (mStats (self w)) in
    (tt, mkWorld (set_mStats s (self w)) (env w) (ticks w) (trace w) (history w ++ [s])).

(** [r.start()] and [r.stop()] read the clock once. *)
Definition TimeCounter_start (r : TimeCounterRef) : M unit :=
  t <- now ;;
  modify_mStats (fun s => assign r (TimeCounter.start t (deref r s)) s).

Definition TimeCounter_stop (r : TimeCounterRef) : M unit :=
  t <- now ;;
  modify_mStats (fun s => assign r (TimeCounter.stop t (deref r s)) s).

Definition TimeCounter_value (r : TimeCounterRef) : M Z :=
  t <- now ;;
  k <- this ;;
  ret (TimeCounter.value t (deref r (mStats k))).

(** [void Worker::AtomicStats::message()] *)
Definition AtomicStats_message : M unit :=
  modify_mStats (fun s =>
    mkAtomicStats (fetch_add (mMessages s) 1) (mRuns s) (mIdle s) (mActive s)).

(** [void Worker::AtomicStats::run()] *)
Definition AtomicStats_run : M unit :=
  modify_mStats (fun s =>
    mkAtomicStats (mMessages s) (fetch_add (mRuns s) 1) (mIdle s) (mActive s)).

(** [Worker::Stats Worker::AtomicStats::load()], with no write to the
    statistics between its four loads, as when the worker's own thread
    calls it from [onDump]. *)
Definition AtomicStats_load : M Stats :=
  k <- this ;;
  let s_messages := mMessages (mStats k) in
  let s_runs := mRuns (mStats k) in
  s_idle <- TimeCounter_value AtomicStats_idle ;;
  s_active <- TimeCounter_value AtomicStats_active ;;
  ret (mkStats s_messages s_runs s_idle s_active).

(** *** Worker: identity *)

(** The text [ss << "worker[" << mId << "]"] builds. *)
Definition default_name (id : Z) : string :=
  String.append "worker[" (String.append (show_int id) "]").

(** [void Worker::name(const char* n)]; [None] is the null pointer and
    [Some buf] a pointer to the characters [buf]. *)
Definition set_name (n : option string) (k : Worker) : Worker :=
  match n with
  | Some buf =>
      if negb (Ascii.eqb (first_char buf) NUL)
      then set_mName (c_str buf) k
      else set_mName (default_name (mId k)) k
  | None => set_mName (default_name (mId k)) k
  end.

(** [const char* Worker::name() const] *)
Definition name (k : Worker) : string := c_str (mName k).

(** [int Worker::id() const] *)
Definition id (k : Worker) : Z := mId k.

(** [Worker::Stats Worker::stats()] *)
Definition stats : M Stats := AtomicStats_load.

(** *** Worker: the handlers *)

(** [void Worker::onBeforeMessage()] *)
Definition onBeforeMessage : M unit :=
  TimeCounter_stop AtomicStats_idle ;;
  TimeCounter_start AtomicStats_active ;;
  AtomicStats_message.

(** [void Worker::onAfterMessage()] *)
Definition onAfterMessage : M unit :=
  TimeCounter_stop AtomicStats_active ;;
  TimeCounter_start AtomicStats_idle.

(** [mParent->task()] *)
Definition pull : M (option TaskPtr) :=
  fun w =>
    let (task, e) := Pool_task (mParent (self w)) (env w) in
    (task, mkWorld (self w) e (ticks w) (trace w) (history w)).

(** [task->run()] *)
Definition run_task (t : TaskPtr) : M unit :=
  fun w => (tt, mkWorld (self w) (Task_run t (env w)) (ticks w) (trace w) (history w)).

Definition onNop : M Result := ret CONTINUE.

Definition onExit : M Result := ret FINISH.

Definition onTask : M Result :=
  task <- pull ;;
  match task with
  | Some t => AtomicStats_run ;; run_task t
  | None => ret tt
  end ;;
  ret CONTINUE.

Definition onDump : M Result :=
  s <- stats ;;
  lock gDumpMutex ;;
  k <- this ;;
  cerr "Thread: " ;; cerr (name k) ;; cerr endl ;;
  cerr "Number of tasks ran: " ;; cerr (show_int (runs s)) ;; cerr endl ;;
  cerr "Number of messages processed: " ;; cerr (show_int (messages s)) ;; cerr endl ;;
  cerr "Time active: " ;; cerr (show_int (active s)) ;; cerr " milliseconds" ;; cerr endl ;;
  cerr "Time idle: " ;; cerr (show_int (idle s)) ;; cerr " milliseconds" ;; cerr endl ;;
  unlock gDumpMutex ;;
  ret CONTINUE.

(** *** The mailbox *)

(** Modelled from the spec: [SignalingQueue::send] (mq.h) "enqueues a
    message"; messages are delivered in send order. *)
Definition SignalingQueue_send (m : Message) (q : list Message) : list Message :=
  q ++ [m].

(** Modelled from the spec: the loop of mq.h dispatches a message "to the
    handler method matching its kind". *)
Definition dispatch (m : Message) : M Result :=
  match m with
  | Message.NOP => onNop
  | Message.EXIT => onExit
  | Message.TASK => onTask
  | Message.DUMP => onDump
  end.

(** Modelled from the spec: [SignalingQueue::loop] (mq.h) "repeatedly
    blocks until a message is available, dequeues exactly one, and
    dispatches it"; [onBeforeMessage] runs immediately before the
    dispatch and [onAfterMessage] immediately after it "unless the result
    was FINISH", on which the loop returns. [q] holds the messages sent to
    the mailbox and not yet received, oldest first; when it is used up the
    loop is blocked until the next [send]. *)
Fixpoint loop_on (q : list Message) : M LoopExit :=
  match q with
  | [] => ret Blocked
  | m :: q' =>
      modify_this (set_mMsgQueue q') ;;
      onBeforeMessage ;;
      r <- dispatch m ;;
      match r with
      | FINISH => ret Returned
      | CONTINUE => onAfterMessage ;; loop_on q'
      end
  end.

Definition SignalingQueue_loop : M LoopExit :=
  k <- this ;; loop_on (mMsgQueue k).

(** *** Worker: thread and messages *)

(** [void Worker::WorkLoop()] *)
Definition WorkLoop : M LoopExit :=
  TimeCounter_start AtomicStats_idle ;;
  SignalingQueue_loop.

Definition run_entry (f : ThreadEntry) : M LoopExit :=
  match f with LambdaWorkLoop => WorkLoop end.

Definition after_exit (x : LoopExit) : Thread :=
  match x with Returned => Finished | Blocked => Waiting end.

(** The worker thread runs as far as the mailbox lets it. *)
Definition thread_run : M unit :=
  k <- this ;;
  match mWorkThread k with
  | Spawned f => x <- run_entry f ;; modify_this (set_mWorkThread (after_exit x))
  | Waiting => x <- SignalingQueue_loop ;; modify_this (set_mWorkThread (after_exit x))
  | _ => ret tt
  end.

(** [std::thread::join]: returns once the thread has finished; [None]
    when it does not return (the thread stays blocked) or the thread is
    not joinable. *)
Definition thread_join (w : World) : option World :=
  let w' := exec thread_run w in
  match mWorkThread (self w') with
  | Finished => Some (set_self (set_mWorkThread Joined) w')
  | _ => None
  end.

(** [Worker::Worker(Pool* parent, int id)] *)
Definition Worker_ctor (parent : PoolPtr) (id : Z) : Worker :=
  let k := mkWorker parent id EmptyString AtomicStats_init [] NotAThread in
  let k := set_name None k in
  set_mWorkThread (Spawned LambdaWorkLoop) k.

(** [void Worker::send(Message m)] *)
Definition send (m : Message) : M unit :=
  modify_this (fun k => set_mMsgQueue (SignalingQueue_send m (mMsgQueue k)) k).

(** [void Worker::exit()] *)
Definition exit : M unit := send Message.EXIT.

(** [void Worker::task()] *)
Definition task : M unit := send Message.TASK.

(** [void Worker::dump()] *)
Definition dump : M unit := send Message.DUMP.

(** [Worker::~Worker()] *)
Definition Worker_dtor (w : World) : option World :=
  thread_join (exec exit w).

(** The two states of the statistics of a live worker: waiting for a
    message, or handling one. *)
Inductive Phase : Set := Idle | Active.

Definition phase (s : AtomicStats) : option Phase :=
  match TimeCounter.started (mIdle s), TimeCounter.started (mActive s) with
  | true, false => Some Idle
  | false, true => Some Active
  | _, _ => None
  end.

(** A run of successive values of the statistics, starting after [s]: no
    counter ever decreases and [runs <= messages] in each of them. *)
Fixpoint counters_chain (s : AtomicStats) (l : list AtomicStats) : Prop :=
  match l with
  | [] => True
  | s' :: l' =>
      (mMessages s <= mMessages s' /\ mRuns s <= mRuns s' /\
       mRuns s' <= mMessages s') /\
      counters_chain s' l'
  end.

(** [w'] continues [w]: its history is the one of [w] followed by a chain
    that ends in the statistics [w'] holds. *)
Definition continues (w w' : World) : Prop :=
  exists l,
    history w' = history w ++ l /\
    counters_chain (mStats (self w)) l /\
    mStats (self w') = last l (mStats (self w)).


(** * Properties *)

(** ** Running the monad *)

Lemma exec_bind {A B} (c : M A) (k : A -> M B) (w : World) :
  exec (bind c k) w = exec (k (eval c w)) (exec c w).
Proof. unfold exec, eval, bind. destruct (c w); reflexivity. Qed.

Lemma run_eq {A} (c : M A) (w : World) : c w = (eval c w, exec c w).
Proof. unfold exec, eval. destruct (c w); reflexivity. Qed.

(** ** The atomic counters *)

Lemma counter_modulus_gt_1 : 0 < counter_bits -> 1 < 2 ^ counter_bits.
Proof. intro H. apply Z.pow_gt_1; lia. Qed.

Lemma fetch_add_small (x : Z) :
  0 <= x -> x + 1 < 2 ^ counter_bits -> fetch_add x 1 = x + 1.
Proof. intros H0 H1. unfold fetch_add. apply Z.mod_small. lia. Qed.

Lemma fetch_add_changes (x : Z) : 0 < counter_bits -> fetch_add x 1 <> x.
Proof.
  intros Hb Heq. pose proof (counter_modulus_gt_1 Hb) as HM.
  unfold fetch_add in Heq.
  pose proof (Z.mod_pos_bound (x + 1) (2 ^ counter_bits) ltac:(lia)) as Hr.
  rewrite Heq in Hr.
  destruct (Z.eq_dec (x + 1) (2 ^ counter_bits)) as [Hlast | Hlast].
  - rewrite Hlast, Z.mod_same in Heq by lia. lia.
  - rewrite Z.mod_small in Heq by lia. lia.
Qed.

(** ** The handlers *)

Lemma onTask_result (w : World) : eval onTask w = CONTINUE.
Proof.
  unfold eval, onTask, bind, pull.
  destruct (Pool_task (mParent (self w)) (env w)) as [[t |] e]; reflexivity.
Qed.

Lemma onDump_result (w : World) : eval onDump w = CONTINUE.
Proof. reflexivity. Qed.

(** C4: each handler returns its prescribed loop result on every
    invocation: [onNop], [onTask] (whether or not the pull gave a task) and
    [onDump] return CONTINUE, [onExit] returns FINISH. *)
Theorem handlers_return_prescribed_results : forall w : World,
  eval onNop w = CONTINUE /\
  eval onExit w = FINISH /\
  eval onTask w = CONTINUE /\
  (forall t e, Pool_task (mParent (self w)) (env w) = (Some t, e) ->
               eval onTask w = CONTINUE) /\
  (forall e, Pool_task (mParent (self w)) (env w) = (None, e) ->
             eval onTask w = CONTINUE) /\
  eval onDump w = CONTINUE.
Proof.
  intro w. pose proof (onTask_result w) as HT.
  split; [reflexivity | split; [reflexivity | split; [exact HT |]]].
  split; [intros t e _; exact HT | split; [intros e _; exact HT |]].
  apply onDump_result.
Qed.

Lemma onTask_claimed (w : World) (t : TaskPtr) (e : Env) :
  Pool_task (mParent (self w)) (env w) = (Some t, e) ->
  exec onTask w =
  mkWorld (set_mStats (mkAtomicStats (mMessages (mStats (self w)))
                                     (fetch_add (mRuns (mStats (self w))) 1)
                                     (mIdle (mStats (self w)))
                                     (mActive (mStats (self w)))) (self w))
          (Task_run t e) (ticks w) (trace w)
          (history w ++ [mkAtomicStats (mMessages (mStats (self w)))
                                       (fetch_add (mRuns (mStats (self w))) 1)
                                       (mIdle (mStats (self w)))
                                       (mActive (mStats (self w)))]).
Proof.
  intro Hp. unfold exec, onTask, bind, pull. rewrite Hp. reflexivity.
Qed.

Lemma onTask_empty (w : World) (e : Env) :
  Pool_task (mParent (self w)) (env w) = (None, e) ->
  exec onTask w = mkWorld (self w) e (ticks w) (trace w) (history w).
Proof.
  intro Hp. unfold exec, onTask, bind, pull. rewrite Hp. reflexivity.
Qed.

Lemma onBeforeMessage_counters (w : World) :
  mMessages (mStats (self (exec onBeforeMessage w))) =
    fetch_add (mMessages (mStats (self w))) 1 /\
  mRuns (mStats (self (exec onBeforeMessage w))) = mRuns (mStats (self w)) /\
  mParent (self (exec onBeforeMessage w)) = mParent (self w) /\
  env (exec onBeforeMessage w) = env w.
Proof. repeat split; reflexivity. Qed.

(** C2: [onTask] increments the run counter exactly when the pull from the
    parent pool returned a task, which it then runs; when the pull is empty
    the message was counted by [onBeforeMessage] and the run counter is
    left as it was. *)
Theorem onTask_counts_run_iff_task_claimed : forall w : World,
  0 < counter_bits ->
  let claimed := fst (Pool_task (mParent (self w)) (env w)) in
  let e := snd (Pool_task (mParent (self w)) (env w)) in
  let runs_before := mRuns (mStats (self w)) in
  let runs_after := mRuns (mStats (self (exec onTask w))) in
  let handled := exec (onBeforeMessage ;; onTask) w in
  (forall t, claimed = Some t ->
     runs_after = fetch_add runs_before 1 /\ env (exec onTask w) = Task_run t e) /\
  (claimed = None -> runs_after = runs_before /\ env (exec onTask w) = e) /\
  (runs_after <> runs_before <-> claimed <> None) /\
  (claimed = None ->
     mMessages (mStats (self handled)) = fetch_add (mMessages (mStats (self w))) 1 /\
     mRuns (mStats (self handled)) = runs_before).
Proof.
  intros w Hb claimed e runs_before runs_after handled.
  subst claimed e runs_before runs_after handled.
  rewrite exec_bind.
  destruct (onBeforeMessage_counters w) as (Hm & Hr & Hp & He).
  set (w1 := exec onBeforeMessage w) in *.
  assert (Hpull : Pool_task (mParent (self w1)) (env w1) =
                  Pool_task (mParent (self w)) (env w)) by (rewrite Hp, He; reflexivity).
  destruct (Pool_task (mParent (self w)) (env w)) as [[t |] e0] eqn:Hpool; simpl.
  - rewrite (onTask_claimed w t e0 Hpool); simpl.
    split; [| split; [| split]].
    + intros t' Ht. inversion Ht; subst. split; reflexivity.
    + discriminate.
    + split; [discriminate |].
      intros _. apply fetch_add_changes; assumption.
    + discriminate.
  - rewrite (onTask_empty w e0 Hpool), (onTask_empty w1 e0 Hpull); simpl.
    split; [| split; [| split]].
    + discriminate.
    + intros _. split; reflexivity.
    + split; intro H; exfalso; apply H; reflexivity.
    + intros _. split; assumption.
Qed.

(** ** The history of the statistics *)

Lemma last_cons {A} (l : list A) : forall a d : A, last (a :: l) d = last l a.
Proof.
  induction l as [| b l IH]; intros a d.
  - reflexivity.
  - change (last (a :: b :: l) d) with (last (b :: l) d).
    rewrite (IH b d), (IH b a). reflexivity.
Qed.

Lemma last_app_from {A} (l1 l2 : list A) (d : A) :
  last (l1 ++ l2) d = last l2 (last l1 d).
Proof.
  revert d. induction l1 as [| a l1 IH]; intro d.
  - reflexivity.
  - rewrite <- app_comm_cons, !last_cons. apply IH.
Qed.

Lemma counters_chain_app (s : AtomicStats) (l1 l2 : list AtomicStats) :
  counters_chain s l1 -> counters_chain (last l1 s) l2 ->
  counters_chain s (l1 ++ l2).
Proof.
  revert s. induction l1 as [| a l1 IH]; intros s H1 H2.
  - exact H2.
  - destruct H1 as [Ha H1]. rewrite last_cons in H2.
    split; [exact Ha | apply IH; assumption].
Qed.

Lemma continues_refl (w : World) : continues w w.
Proof.
  exists []. rewrite app_nil_r. repeat split.
Qed.

Lemma continues_trans (w1 w2 w3 : World) :
  continues w1 w2 -> continues w2 w3 -> continues w1 w3.
Proof.
  intros (l1 & Hh1 & Hc1 & Hs1) (l2 & Hh2 & Hc2 & Hs2).
  exists (l1 ++ l2). split; [| split].
  - rewrite Hh2, Hh1, app_assoc. reflexivity.
  - apply counters_chain_app; [assumption |]. rewrite <- Hs1. assumption.
  - rewrite last_app_from, <- Hs1. assumption.
Qed.

(** A step that leaves the statistics and their history alone. *)
Lemma continues_same (w w' : World) :
  history w' = history w -> mStats (self w') = mStats (self w) ->
  continues w w'.
Proof.
  intros Hh Hs. exists []. rewrite app_nil_r. repeat split; assumption.
Qed.

Lemma onBeforeMessage_continues (w : World) :
  let s := mStats (self w) in
  let s' := mStats (self (exec onBeforeMessage w)) in
  0 <= mRuns s <= mMessages s ->
  mMessages s + 1 < 2 ^ counter_bits ->
  continues w (exec onBeforeMessage w) /\
  mMessages s' = mMessages s + 1 /\ mRuns s' = mRuns s.
Proof.
  intros s s' Hinv Hroom. subst s s'.
  assert (Hf : fetch_add (mMessages (mStats (self w))) 1 =
               mMessages (mStats (self w)) + 1)
    by (apply fetch_add_small; lia).
  split; [| split; [exact Hf | reflexivity]].
  eexists. split; [| split].
  - simpl. rewrite <- !app_assoc. simpl. reflexivity.
  - simpl. rewrite Hf. lia.
  - simpl. reflexivity.
Qed.

Lemma onAfterMessage_continues (w : World) :
  let s := mStats (self w) in
  let s' := mStats (self (exec onAfterMessage w)) in
  mRuns s <= mMessages s ->
  continues w (exec onAfterMessage w) /\
  mMessages s' = mMessages s /\ mRuns s' = mRuns s.
Proof.
  intros s s' Hinv. subst s s'.
  split; [| split; reflexivity].
  eexists. split; [| split].
  - simpl. rewrite <- !app_assoc. simpl. reflexivity.
  - simpl. lia.
  - simpl. reflexivity.
Qed.

Lemma onDump_keeps_statistics (w : World) :
  history (exec onDump w) = history w /\
  self (exec onDump w) = self w /\
  env (exec onDump w) = env w.
Proof. repeat split; reflexivity. Qed.

Lemma dispatch_continues (m : Message) (w : World) :
  let s := mStats (self w) in
  let s' := mStats (self (exec (dispatch m) w)) in
  0 <= mRuns s < mMessages s ->
  mMessages s < 2 ^ counter_bits ->
  continues w (exec (dispatch m) w) /\
  mMessages s' = mMessages s /\ mRuns s <= mRuns s' <= mMessages s.
Proof.
  intros s s' Hinv Hroom. subst s s'.
  destruct m; simpl dispatch.
  - (* NOP *)
    split; [apply continues_refl | unfold exec, onNop, ret; simpl; lia].
  - (* EXIT *)
    split; [apply continues_refl | unfold exec, onExit, ret; simpl; lia].
  - (* TASK *)
    destruct (Pool_task (mParent (self w)) (env w)) as [[t |] e] eqn:Hpool.
    + rewrite (onTask_claimed w t e Hpool).
      assert (Hf : fetch_add (mRuns (mStats (self w))) 1 =
                   mRuns (mStats (self w)) + 1)
        by (apply fetch_add_small; lia).
      split; [| simpl; rewrite Hf; lia].
      eexists. split; [| split].
      * simpl. reflexivity.
      * simpl. rewrite Hf. lia.
      * simpl. reflexivity.
    + rewrite (onTask_empty w e Hpool).
      split; [apply continues_same; reflexivity | simpl; lia].
  - (* DUMP *)
    destruct (onDump_keeps_statistics w) as (Hh & Hs & _).
    split; [apply continues_same; [exact Hh | rewrite Hs; reflexivity] |].
    rewrite Hs. lia.
Qed.

(** One turn of the loop, as the definition of [loop_on] has it. *)
Lemma loop_on_cons (m : Message) (q : list Message) (w : World) :
  loop_on (m :: q) w =
  let w1 := exec onBeforeMessage (set_self (set_mMsgQueue q) w) in
  match eval (dispatch m) w1 with
  | FINISH => (Returned, exec (dispatch m) w1)
  | CONTINUE => loop_on q (exec onAfterMessage (exec (dispatch m) w1))
  end.
Proof.
  cbn [loop_on]. unfold bind at 1. unfold modify_this at 1. cbv beta iota.
  unfold bind at 1. rewrite (run_eq onBeforeMessage). cbv beta iota.
  unfold bind at 1. rewrite (run_eq (dispatch m)). cbv beta iota zeta.
  destruct (eval (dispatch m) _); [| reflexivity].
  unfold bind at 1. rewrite (run_eq onAfterMessage). reflexivity.
Qed.

Lemma loop_on_continues (q : list Message) : forall w : World,
  0 <= mRuns (mStats (self w)) <= mMessages (mStats (self w)) ->
  mMessages (mStats (self w)) + Z.of_nat (List.length q) < 2 ^ counter_bits ->
  continues w (exec (loop_on q) w).
Proof.
  induction q as [| m q IH]; intros w Hinv Hroom.
  - apply continues_refl.
  - unfold exec. rewrite loop_on_cons. cbv zeta.
    change (List.length (m :: q)) with (S (List.length q)) in Hroom.
    rewrite Nat2Z.inj_succ in Hroom.
    set (w0 := set_self (set_mMsgQueue q) w).
    assert (H0 : continues w w0) by (apply continues_same; reflexivity).
    destruct (onBeforeMessage_continues w0) as (H1 & Hm1 & Hr1);
      [exact Hinv | simpl; lia |].
    set (w1 := exec onBeforeMessage w0) in *.
    change (mStats (self w0)) with (mStats (self w)) in Hm1, Hr1.
    destruct (dispatch_continues m w1) as (H2 & Hm2 & Hr2); [lia | lia |].
    set (w2 := exec (dispatch m) w1) in *.
    destruct (eval (dispatch m) w1).
    + destruct (onAfterMessage_continues w2) as (H3 & Hm3 & Hr3); [lia |].
      set (w3 := exec onAfterMessage w2) in *.
      specialize (IH w3). fold (exec (loop_on q) w3).
      eapply continues_trans; [exact H0 |].
      eapply continues_trans; [exact H1 |].
      eapply continues_trans; [exact H2 |].
      eapply continues_trans; [exact H3 |].
      apply IH; lia.
    + simpl.
      eapply continues_trans; [exact H0 |].
      eapply continues_trans; [exact H1 | exact H2].
Qed.

Lemma stats_counters (w : World) :
  messages (eval stats w) = mMessages (mStats (self w)) /\
  runs (eval stats w) = mRuns (mStats (self w)).
Proof. split; reflexivity. Qed.

(** ** Snapshots loaded by another thread *)

(** [Worker::Stats Worker::AtomicStats::load()] as a thread other than the
    worker's runs it: four loads one after another, each of the value the
    statistics have at its own moment. [at_messages], [at_runs], [at_idle]
    and [at_active] are the statistics at the four loads, in this order,
    [t_idle] and [t_active] the clock readings of the two [value()] calls. *)
Definition AtomicStats_load_across
    (at_messages at_runs at_idle at_active : AtomicStats)
    (t_idle t_active : Z) : Stats :=
  let s_messages := mMessages at_messages in
  let s_runs := mRuns at_runs in
  let s_idle := TimeCounter.value t_idle (mIdle at_idle) in
  let s_active := TimeCounter.value t_active (mActive at_active) in
  mkStats s_messages s_runs s_idle s_active.

(** With no write between the four loads this is the load of
    [AtomicStats_load]. *)
Lemma AtomicStats_load_across_same (w : World) :
  eval AtomicStats_load w =
  AtomicStats_load_across (mStats (self w)) (mStats (self w))
                          (mStats (self w)) (mStats (self w))
                          (clock (ticks w)) (clock (S (ticks w))).
Proof. reflexivity. Qed.

(** From the head of a chain to any later value. *)
Lemma counters_chain_nth (l : list AtomicStats) :
  forall (s : AtomicStats) (j : nat) (b : AtomicStats),
  counters_chain s l -> nth_error l j = Some b ->
  mMessages s <= mMessages b /\ mRuns s <= mRuns b /\
  mRuns b <= mMessages b.
Proof.
  induction l as [| s' l IH]; intros s j b Hc Hj.
  - destruct j; discriminate Hj.
  - destruct Hc as [(Hm & Hr & Hi) Hc]. destruct j as [| j].
    + injection Hj as <-. lia.
    + destruct (IH s' j b Hc Hj) as (Hm' & Hr' & Hi'). lia.
Qed.

(** Between any two values of a chain, the earlier one first. *)
Lemma counters_chain_pairs (l : list AtomicStats) :
  forall (s : AtomicStats) (i j : nat) (a b : AtomicStats),
  counters_chain s l -> mRuns s <= mMessages s -> (i <= j)%nat ->
  nth_error (s :: l) i = Some a -> nth_error (s :: l) j = Some b ->
  mMessages a <= mMessages b /\ mRuns a <= mRuns b /\
  mRuns b <= mMessages b.
Proof.
  induction l as [| s' l IH]; intros s i j a b Hc Hs Hij Hi Hj.
  - destruct i as [| i]; [| destruct i; discriminate Hi].
    destruct j as [| j]; [| destruct j; discriminate Hj].
    injection Hi as <-. injection Hj as <-. lia.
  - destruct i as [| i].
    + injection Hi as <-. destruct j as [| j].
      * injection Hj as <-. lia.
      * exact (counters_chain_nth (s' :: l) s j b Hc Hj).
    + destruct j as [| j]; [lia |].
      destruct Hc as [(Hm & Hr & Hinv) Hc].
      apply (IH s' i j a b Hc Hinv); [lia | exact Hi | exact Hj].
Qed.

(** The message counter wraps: at the greatest value of its integer type
    the next message is counted as 0. *)
Lemma message_counter_wraps (w : World) :
  0 < counter_bits ->
  mMessages (mStats (self w)) = 2 ^ counter_bits - 1 ->
  mMessages (mStats (self (exec onBeforeMessage w))) = 0.
Proof.
  intros Hbits Hmax.
  change (mMessages (mStats (self (exec onBeforeMessage w))))
    with (fetch_add (mMessages (mStats (self w))) 1).
  rewrite Hmax. unfold fetch_add.
  replace (2 ^ counter_bits - 1 + 1) with (2 ^ counter_bits) by lia.
  apply Z_mod_same_full.
Qed.

(** C3, amended: while the message counter stays within the range of its
    integer type, along every sequence of messages the worker handles
    the values the statistics take form a chain in which neither counter
    decreases and [runs <= messages] holds in every value; a snapshot
    that [stats()] loads from one value shows that value's counters. A
    snapshot loaded by another thread reads [messages] from a value [a]
    of the chain and [runs] from the same or a later value [b]: each of
    its counters is no less than in [a], its [runs] is at most the
    message count of [b], so it exceeds its [messages] by at most the
    messages counted between the two loads, and not at all when both
    loads see the same value. *)
Theorem counters_monotone_and_snapshot_lag :
  forall (q : list Message) (w : World),
  0 <= mRuns (mStats (self w)) <= mMessages (mStats (self w)) ->
  mMessages (mStats (self w)) + Z.of_nat (List.length q) < 2 ^ counter_bits ->
  exists l : list AtomicStats,
    history (exec (loop_on q) w) = history w ++ l /\
    counters_chain (mStats (self w)) l /\
    mStats (self (exec (loop_on q) w)) = last l (mStats (self w)) /\
    (forall w' : World,
       messages (eval stats w') = mMessages (mStats (self w')) /\
       runs (eval stats w') = mRuns (mStats (self w'))) /\
    (forall (i j : nat) (a b c d : AtomicStats) (t_idle t_active : Z),
       (i <= j)%nat ->
       nth_error (mStats (self w) :: l) i = Some a ->
       nth_error (mStats (self w) :: l) j = Some b ->
       let snap := AtomicStats_load_across a b c d t_idle t_active in
       messages snap = mMessages a /\ runs snap = mRuns b /\
       mMessages a <= mMessages b /\ mRuns a <= mRuns b /\
       mRuns b <= mMessages b /\
       runs snap - messages snap <= mMessages b - mMessages a /\
       (i = j -> runs snap <= messages snap)).
Proof.
  intros q w Hinv Hroom.
  destruct (loop_on_continues q w Hinv Hroom) as (l & Hh & Hc & Hs).
  exists l. split; [exact Hh |]. split; [exact Hc |]. split; [exact Hs |].
  split; [apply stats_counters |].
  intros i j a b c d t_idle t_active Hij Hi Hj snap. subst snap.
  destruct (counters_chain_pairs l (mStats (self w)) i j a b Hc
              (proj2 Hinv) Hij Hi Hj) as (Hm & Hr & Hb).
  cbn [AtomicStats_load_across messages runs].
  repeat split; try assumption; try lia.
  intros ->. rewrite Hi in Hj. injection Hj as <-.
  destruct (counters_chain_pairs l (mStats (self w)) j j a a Hc
              (proj2 Hinv) (le_n j) Hi Hi) as (_ & _ & Ha).
  exact Ha.
Qed.

(** ** The idle and active timers *)

Lemma started_stop (now0 : Z) (c : TimeCounter.t) :
  TimeCounter.started (TimeCounter.stop now0 c) = false.
Proof.
  unfold TimeCounter.stop, TimeCounter.started.
  destruct (TimeCounter.marker c) eqn:Hm; simpl; [reflexivity | rewrite Hm; reflexivity].
Qed.

Lemma phase_Idle (s : AtomicStats) :
  phase s = Some Idle <->
  TimeCounter.started (mIdle s) = true /\ TimeCounter.started (mActive s) = false.
Proof.
  unfold phase.
  destruct (TimeCounter.started (mIdle s)), (TimeCounter.started (mActive s));
    split; try discriminate; try tauto; intros [H1 H2]; discriminate.
Qed.

Lemma phase_Active (s : AtomicStats) :
  phase s = Some Active <->
  TimeCounter.started (mIdle s) = false /\ TimeCounter.started (mActive s) = true.
Proof.
  unfold phase.
  destruct (TimeCounter.started (mIdle s)), (TimeCounter.started (mActive s));
    split; try discriminate; try tauto; intros [H1 H2]; discriminate.
Qed.

(** What [onBeforeMessage] does, field by field. *)
Lemma onBeforeMessage_effect (w : World) :
  let s := mStats (self w) in
  let w' := exec onBeforeMessage w in
  mStats (self w') =
    mkAtomicStats (fetch_add (mMessages s) 1) (mRuns s)
                  (TimeCounter.stop (clock (ticks w)) (mIdle s))
                  (TimeCounter.start (clock (S (ticks w))) (mActive s)) /\
  ticks w' = S (S (ticks w)) /\
  set_mStats (mStats (self w)) (self w') = self w /\
  env w' = env w /\ trace w' = trace w.
Proof.
  cbv zeta. repeat split; try reflexivity.
  destruct w as [[p i n s q t] e k tr h]; reflexivity.
Qed.

(** What [onAfterMessage] does, field by field. *)
Lemma onAfterMessage_effect (w : World) :
  let s := mStats (self w) in
  let w' := exec onAfterMessage w in
  mStats (self w') =
    mkAtomicStats (mMessages s) (mRuns s)
                  (TimeCounter.start (clock (S (ticks w))) (mIdle s))
                  (TimeCounter.stop (clock (ticks w)) (mActive s)) /\
  ticks w' = S (S (ticks w)) /\
  set_mStats (mStats (self w)) (self w') = self w /\
  env w' = env w /\ trace w' = trace w.
Proof.
  cbv zeta. repeat split; try reflexivity.
  destruct w as [[p i n s q t] e k tr h]; reflexivity.
Qed.

(** No handler touches a timer, the message counter, the mailbox, the name
    or the thread. *)
Lemma dispatch_frame (m : Message) (w : World) :
  let k := self w in
  let k' := self (exec (dispatch m) w) in
  mIdle (mStats k') = mIdle (mStats k) /\
  mActive (mStats k') = mActive (mStats k) /\
  mMessages (mStats k') = mMessages (mStats k) /\
  mMsgQueue k' = mMsgQueue k /\
  mWorkThread k' = mWorkThread k /\
  mName k' = mName k /\ mId k' = mId k /\ mParent k' = mParent k.
Proof.
  cbv zeta. destruct m; simpl dispatch.
  - repeat split; reflexivity.
  - repeat split; reflexivity.
  - destruct (Pool_task (mParent (self w)) (env w)) as [[t |] e] eqn:Hpool.
    + rewrite (onTask_claimed w t e Hpool). repeat split; reflexivity.
    + rewrite (onTask_empty w e Hpool). repeat split; reflexivity.
  - destruct (onDump_keeps_statistics w) as (_ & Hs & _). rewrite Hs.
    repeat split; reflexivity.
Qed.

Lemma dispatch_EXIT_only_finishes (m : Message) (w : World) :
  eval (dispatch m) w = FINISH <-> m = Message.EXIT.
Proof.
  pose proof (onTask_result w) as Ht. pose proof (onDump_result w) as Hd.
  destruct m; simpl dispatch; split; intro H;
    try reflexivity; try discriminate; congruence.
Qed.

(** From the idle state, the loop is back in the idle state whenever it
    waits for the next message, and it returns in the active state. *)
Lemma loop_on_phase (q : list Message) : forall w : World,
  phase (mStats (self w)) = Some Idle ->
  phase (mStats (self (exec (loop_on q) w))) =
  Some (match eval (loop_on q) w with Blocked => Idle | Returned => Active end).
Proof.
  induction q as [| m q IH]; intros w Hidle.
  - exact Hidle.
  - unfold exec, eval. rewrite loop_on_cons. cbv zeta.
    set (w0 := set_self (set_mMsgQueue q) w).
    destruct (onBeforeMessage_effect w0) as (Hs1 & _).
    set (w1 := exec onBeforeMessage w0) in *.
    destruct (dispatch_frame m w1) as (Hi2 & Ha2 & _).
    set (w2 := exec (dispatch m) w1) in *.
    assert (Hact : phase (mStats (self w2)) = Some Active).
    { apply phase_Active. rewrite Hi2, Ha2, Hs1. simpl.
      split; [apply started_stop | reflexivity]. }
    destruct (eval (dispatch m) w1).
    + destruct (onAfterMessage_effect w2) as (Hs3 & _).
      apply (IH (exec onAfterMessage w2)).
      apply phase_Idle. rewrite Hs3. simpl.
      split; [reflexivity | apply started_stop].
    + exact Hact.
Qed.

(** C5: the statistics follow the state machine. [WorkLoop] starts the idle
    timer and enters the loop in the idle state; for each message,
    [onBeforeMessage] stops the idle timer, starts the active timer and
    counts the message before the dispatch, the handler leaves both timers
    alone, and [onAfterMessage] stops the active timer and starts the idle
    timer after it, unless the handler returned FINISH, on which the loop
    returns at once. *)
Theorem statistics_state_machine :
  forall (m : Message) (q : list Message) (w : World),
  let s := mStats (self w) in
  (TimeCounter.started (mIdle s) = false ->
   TimeCounter.started (mActive s) = false ->
   let w' := exec (TimeCounter_start AtomicStats_idle) w in
   WorkLoop w = SignalingQueue_loop w' /\
   mIdle (mStats (self w')) = TimeCounter.start (clock (ticks w)) (mIdle s) /\
   phase (mStats (self w')) = Some Idle) /\
  (phase s = Some Idle ->
   let w1 := exec onBeforeMessage (set_self (set_mMsgQueue q) w) in
   let s1 := mStats (self w1) in
   let w2 := exec (dispatch m) w1 in
   let s2 := mStats (self w2) in
   let w3 := exec onAfterMessage w2 in
   let s3 := mStats (self w3) in
   (mIdle s1 = TimeCounter.stop (clock (ticks w)) (mIdle s) /\
    mActive s1 = TimeCounter.start (clock (S (ticks w))) (mActive s) /\
    mMessages s1 = fetch_add (mMessages s) 1 /\
    phase s1 = Some Active) /\
   (mIdle s2 = mIdle s1 /\ mActive s2 = mActive s1 /\ phase s2 = Some Active) /\
   (eval (dispatch m) w1 = CONTINUE ->
    loop_on (m :: q) w = loop_on q w3 /\
    mActive s3 = TimeCounter.stop (clock (ticks w2)) (mActive s2) /\
    mIdle s3 = TimeCounter.start (clock (S (ticks w2))) (mIdle s2) /\
    phase s3 = Some Idle) /\
   (eval (dispatch m) w1 = FINISH ->
    loop_on (m :: q) w = (Returned, w2))) /\
  (phase s = Some Idle ->
   phase (mStats (self (exec (loop_on q) w))) =
   Some (match eval (loop_on q) w with Blocked => Idle | Returned => Active end)).
Proof.
  intros m q w s. split; [| split].
  - intros Hi Ha w'. subst w'. split; [| split].
    + unfold WorkLoop, bind. rewrite (run_eq (TimeCounter_start AtomicStats_idle)).
      reflexivity.
    + reflexivity.
    + apply phase_Idle. split; [reflexivity | exact Ha].
  - intros Hidle w1 s1 w2 s2 w3 s3.
    set (w0 := set_self (set_mMsgQueue q) w) in *.
    destruct (onBeforeMessage_effect w0) as (Hs1 & _). fold w1 s1 in Hs1.
    change (mStats (self w0)) with s in Hs1.
    change (ticks w0) with (ticks w) in Hs1.
    destruct (dispatch_frame m w1) as (Hi2 & Ha2 & _). fold w2 s2 s1 in Hi2, Ha2.
    destruct (onAfterMessage_effect w2) as (Hs3 & _). fold w3 s3 s2 in Hs3.
    assert (Hact1 : phase s1 = Some Active).
    { apply phase_Active. rewrite Hs1. simpl.
      split; [apply started_stop | reflexivity]. }
    assert (Hact2 : phase s2 = Some Active).
    { apply phase_Active. rewrite Hi2, Ha2. apply phase_Active. exact Hact1. }
    split; [| split; [| split]].
    + rewrite Hs1. simpl. repeat split; try reflexivity. rewrite <- Hs1. exact Hact1.
    + repeat split; assumption.
    + intro Hr. rewrite loop_on_cons. cbv zeta. fold w0 w1 w2. rewrite Hr. fold w3.
      rewrite Hs3. simpl. repeat split; try reflexivity.
      apply phase_Idle. simpl. split; [reflexivity | apply started_stop].
    + intro Hr. rewrite loop_on_cons. cbv zeta. fold w0 w1 w2. rewrite Hr.
      reflexivity.
  - apply loop_on_phase.
Qed.

(** ** Names *)

Lemma c_str_idempotent (buf : string) : c_str (c_str buf) = c_str buf.
Proof.
  induction buf as [| c rest IH]; simpl.
  - reflexivity.
  - destruct (Ascii.eqb c NUL) eqn:Hc; simpl.
    + reflexivity.
    + rewrite Hc, IH. reflexivity.
Qed.

Lemma c_str_append (s1 s2 : string) :
  c_str s1 = s1 -> c_str (String.append s1 s2) = String.append s1 (c_str s2).
Proof.
  induction s1 as [| c s1 IH]; simpl; intro H.
  - reflexivity.
  - destruct (Ascii.eqb c NUL); [discriminate |].
    injection H as H. rewrite (IH H). reflexivity.
Qed.

Lemma c_str_empty_iff (buf : string) :
  c_str buf = EmptyString <-> first_char buf = NUL.
Proof.
  destruct buf as [| c rest]; simpl.
  - split; reflexivity.
  - destruct (Ascii.eqb c NUL) eqn:Hc.
    + apply Ascii.eqb_eq in Hc. split; [intros _; exact Hc | reflexivity].
    + apply Ascii.eqb_neq in Hc. split; [discriminate | contradiction].
Qed.

Lemma c_str_digits (d : Decimal.uint) :
  c_str (NilEmpty.string_of_uint d) = NilEmpty.string_of_uint d.
Proof.
  induction d; simpl; try rewrite IHd; reflexivity.
Qed.

Lemma c_str_show_int (z : Z) : c_str (show_int z) = show_int z.
Proof.
  unfold show_int, NilZero.string_of_int, NilZero.string_of_uint.
  destruct (Z.to_int z) as [d | d]; destruct d; simpl;
    try rewrite c_str_digits; reflexivity.
Qed.

Lemma c_str_default_name (i : Z) : c_str (default_name i) = default_name i.
Proof.
  unfold default_name.
  rewrite c_str_append by reflexivity.
  rewrite c_str_append by apply c_str_show_int.
  reflexivity.
Qed.

(** C10: [name(n)] with a null pointer or an empty string resets the name
    to the default ["worker[<id>]"] built from the id given at
    construction; with a non-empty string it stores exactly that string;
    [name()] returns the stored name. *)
Theorem name_null_or_empty_resets_else_assigns :
  forall (n : option string) (k : Worker),
  (n = None \/ (exists buf, n = Some buf /\ c_str buf = EmptyString) ->
   mName (set_name n k) =
     String.append "worker[" (String.append (show_int (id k)) "]")) /\
  (forall buf, n = Some buf -> c_str buf <> EmptyString ->
   mName (set_name n k) = c_str buf) /\
  (forall buf, n = Some buf -> buf <> EmptyString -> c_str buf = buf ->
   name (set_name n k) = buf) /\
  name (set_name n k) = mName (set_name n k) /\
  id (set_name n k) = id k /\
  (forall (parent : PoolPtr) (i : Z), id (Worker_ctor parent i) = i).
Proof.
  intros n k.
  assert (Hreset : forall buf, c_str buf = EmptyString ->
                   set_name (Some buf) k = set_mName (default_name (mId k)) k).
  { intros buf Hb. apply c_str_empty_iff in Hb. unfold set_name.
    rewrite Hb. reflexivity. }
  assert (Hassign : forall buf, c_str buf <> EmptyString ->
                    set_name (Some buf) k = set_mName (c_str buf) k).
  { intros buf Hb. unfold set_name.
    destruct (Ascii.eqb (first_char buf) NUL) eqn:Hc; [| reflexivity].
    apply Ascii.eqb_eq in Hc. apply c_str_empty_iff in Hc. contradiction. }
  split; [| split; [| split; [| split; [| split]]]].
  - intros [Hn | (buf & Hn & Hb)]; subst n.
    + reflexivity.
    + rewrite (Hreset buf Hb). reflexivity.
  - intros buf Hn Hb. subst n. rewrite (Hassign buf Hb). reflexivity.
  - intros buf Hn Hne Hb. subst n.
    rewrite Hassign by (rewrite Hb; exact Hne).
    unfold name. simpl. rewrite c_str_idempotent. exact Hb.
  - unfold name. destruct n as [buf |]; simpl.
    + destruct (Ascii.eqb (first_char buf) NUL); simpl.
      * apply c_str_default_name.
      * apply c_str_idempotent.
    + apply c_str_default_name.
  - destruct n as [buf |]; simpl;
      [destruct (Ascii.eqb (first_char buf) NUL) |]; reflexivity.
  - reflexivity.
Qed.

(** ** Construction *)

(** C6: the constructor gives the worker the name ["worker[<id>]"] and
    spawns a thread whose function is [WorkLoop]; that thread starts the
    idle timer, so the statistics are in the idle state, before the loop
    waits for or takes any message. *)
Theorem constructor_names_spawns_and_starts_idle :
  forall (parent : PoolPtr) (i : Z),
  let k := Worker_ctor parent i in
  name k = String.append "worker[" (String.append (show_int i) "]") /\
  mParent k = parent /\ id k = i /\
  mWorkThread k = Spawned LambdaWorkLoop /\
  run_entry LambdaWorkLoop = WorkLoop /\
  mStats k = AtomicStats_init /\
  mMsgQueue k = [] /\
  (forall (q : list Message) (w : World),
     self w = set_mMsgQueue q k ->
     let w' := exec (TimeCounter_start AtomicStats_idle) w in
     WorkLoop w = loop_on q w' /\
     exec thread_run w =
       set_self (set_mWorkThread (after_exit (eval (loop_on q) w')))
                (exec (loop_on q) w') /\
     history w' = history w ++ [mStats (self w')] /\
     mIdle (mStats (self w')) = TimeCounter.mk 0 (Some (clock (ticks w))) /\
     phase (mStats (self w')) = Some Idle /\
     mMessages (mStats (self w')) = 0 /\ mRuns (mStats (self w')) = 0 /\
     (q = [] -> mWorkThread (self (exec thread_run w)) = Waiting /\
                mStats (self (exec thread_run w)) = mStats (self w'))).
Proof.
  intros parent i k.
  assert (Hname : name k = default_name i) by apply c_str_default_name.
  repeat match goal with |- _ /\ _ => split end; try reflexivity.
  - exact Hname.
  - intros q w Hw w'.
    assert (Hq : mMsgQueue (self w') = q) by (subst w'; simpl; rewrite Hw; reflexivity).
    assert (HW : WorkLoop w = loop_on q w').
    { unfold WorkLoop, bind.
      rewrite (run_eq (TimeCounter_start AtomicStats_idle)). fold w'.
      unfold SignalingQueue_loop, bind, this. rewrite Hq. reflexivity. }
    assert (HT : exec thread_run w =
                 set_self (set_mWorkThread (after_exit (eval (loop_on q) w')))
                          (exec (loop_on q) w')).
    { unfold thread_run, exec at 1, bind, this. rewrite Hw.
      change (mWorkThread (set_mMsgQueue q k)) with (Spawned LambdaWorkLoop).
      cbv beta iota. change (run_entry LambdaWorkLoop w) with (WorkLoop w).
      rewrite HW, (run_eq (loop_on q)). reflexivity. }
    assert (Hs : mStats (self w') =
                 mkAtomicStats 0 0 (TimeCounter.mk 0 (Some (clock (ticks w))))
                               TimeCounter.init).
    { subst w'. simpl. rewrite Hw. reflexivity. }
    repeat match goal with |- _ /\ _ => split end.
    + exact HW.
    + exact HT.
    + reflexivity.
    + rewrite Hs. reflexivity.
    + rewrite Hs. reflexivity.
    + rewrite Hs. reflexivity.
    + rewrite Hs. reflexivity.
    + intro Hnil. rewrite HT, Hnil. split; reflexivity.
Qed.

(** ** Destruction *)

Lemma loop_on_returns_at_EXIT (q q' : list Message) : forall w : World,
  eval (loop_on (q ++ Message.EXIT :: q')) w = Returned.
Proof.
  induction q as [| m q IH]; intro w.
  - unfold eval. simpl app. rewrite loop_on_cons. cbv zeta. reflexivity.
  - unfold eval. rewrite <- app_comm_cons, loop_on_cons. cbv zeta.
    destruct (eval (dispatch m) _); [apply IH | reflexivity].
Qed.

Lemma loop_on_blocks_without_EXIT (q : list Message) : forall w : World,
  ~ In Message.EXIT q -> eval (loop_on q) w = Blocked.
Proof.
  induction q as [| m q IH]; intros w Hq.
  - reflexivity.
  - unfold eval. rewrite loop_on_cons. cbv zeta.
    destruct (eval (dispatch m) _) eqn:Hr.
    + apply IH. intro Hin. apply Hq. right. exact Hin.
    + apply dispatch_EXIT_only_finishes in Hr. exfalso. apply Hq. left. exact Hr.
Qed.

Lemma thread_run_Waiting (w : World) :
  mWorkThread (self w) = Waiting ->
  mWorkThread (self (exec thread_run w)) =
  after_exit (eval (loop_on (mMsgQueue (self w))) w).
Proof.
  intro Hw. unfold thread_run, exec at 1, bind, this. rewrite Hw.
  unfold SignalingQueue_loop, bind, this.
  rewrite (run_eq (loop_on (mMsgQueue (self w)))). reflexivity.
Qed.

Lemma thread_run_Spawned (w : World) (f : ThreadEntry) :
  mWorkThread (self w) = Spawned f ->
  mWorkThread (self (exec thread_run w)) =
  after_exit (eval (loop_on (mMsgQueue (self w)))
                   (exec (TimeCounter_start AtomicStats_idle) w)).
Proof.
  intro Hw. unfold thread_run, exec at 1, bind, this. rewrite Hw.
  destruct f. unfold run_entry, WorkLoop, bind.
  rewrite (run_eq (TimeCounter_start AtomicStats_idle)).
  unfold SignalingQueue_loop, bind, this.
  change (mMsgQueue (self (exec (TimeCounter_start AtomicStats_idle) w)))
    with (mMsgQueue (self w)).
  rewrite (run_eq (loop_on (mMsgQueue (self w)))). reflexivity.
Qed.

Lemma thread_join_Joined (w w' : World) :
  thread_join w = Some w' -> mWorkThread (self w') = Joined.
Proof.
  unfold thread_join.
  destruct (mWorkThread (self (exec thread_run w))); try discriminate.
  intro H. injection H as H. subst w'. reflexivity.
Qed.

Lemma thread_join_iff_Finished (w : World) :
  (exists w', thread_join w = Some w') <->
  mWorkThread (self (exec thread_run w)) = Finished.
Proof.
  unfold thread_join.
  destruct (mWorkThread (self (exec thread_run w))); split;
    try discriminate; try reflexivity;
    try (intros [w' H]; discriminate); intros _; eexists; reflexivity.
Qed.

(** C7: the destructor first sends EXIT to the worker's own mailbox and
    then joins the thread; the join returns, and when it has returned the
    thread has finished. [exit()] is [send(EXIT)]. A join that no EXIT
    precedes does not return. *)
Theorem destructor_sends_EXIT_then_joins :
  forall w : World,
  (mWorkThread (self w) = Waiting \/ mWorkThread (self w) = Finished \/
   exists f, mWorkThread (self w) = Spawned f) ->
  exit = send Message.EXIT /\
  mMsgQueue (self (exec exit w)) = mMsgQueue (self w) ++ [Message.EXIT] /\
  Worker_dtor w = thread_join (exec exit w) /\
  mWorkThread (self (exec thread_run (exec exit w))) = Finished /\
  (exists w', Worker_dtor w = Some w' /\ mWorkThread (self w') = Joined) /\
  (mWorkThread (self w) = Waiting -> ~ In Message.EXIT (mMsgQueue (self w)) ->
   thread_join w = None).
Proof.
  intros w Hthread.
  assert (Hq : mMsgQueue (self (exec exit w)) = mMsgQueue (self w) ++ [Message.EXIT])
    by reflexivity.
  assert (Ht : mWorkThread (self (exec exit w)) = mWorkThread (self w))
    by reflexivity.
  assert (Hfin : mWorkThread (self (exec thread_run (exec exit w))) = Finished).
  { destruct Hthread as [Hw | [Hw | [f Hw]]].
    - rewrite thread_run_Waiting by (rewrite Ht; exact Hw).
      rewrite Hq, loop_on_returns_at_EXIT. reflexivity.
    - unfold thread_run, exec at 1, bind, this. rewrite Ht, Hw. simpl.
      rewrite Hw. reflexivity.
    - rewrite (thread_run_Spawned _ f) by (rewrite Ht; exact Hw).
      rewrite Hq, loop_on_returns_at_EXIT. reflexivity. }
  repeat match goal with |- _ /\ _ => split end; try reflexivity.
  - exact Hfin.
  - apply thread_join_iff_Finished in Hfin. destruct Hfin as [w' Hj].
    exists w'. split; [exact Hj | exact (thread_join_Joined _ _ Hj)].
  - intros Hw Hno. unfold thread_join.
    rewrite (thread_run_Waiting w Hw), (loop_on_blocks_without_EXIT _ w Hno).
    reflexivity.
Qed.

(** ** The dump *)










(** * Further properties of worker.cpp *)

(** ** Names *)

Lemma default_name_not_empty (i : Z) : default_name i <> EmptyString.
Proof. discriminate. Qed.

Lemma c_str_not_empty (buf : string) :
  first_char buf <> NUL -> c_str buf <> EmptyString.
Proof.
  intros Hc He. apply c_str_empty_iff in He. contradiction.
Qed.

Lemma mName_set_name_cases (n : option string) (k : Worker) :
  (mName (set_name n k) = default_name (mId k)) \/
  (exists buf, n = Some buf /\ first_char buf <> NUL /\
               mName (set_name n k) = c_str buf).
Proof.
  destruct n as [buf |]; simpl; [| left; reflexivity].
  destruct (Ascii.eqb (first_char buf) NUL) eqn:Hc; simpl.
  - left. reflexivity.
  - right. exists buf. apply Ascii.eqb_neq in Hc. repeat split; assumption.
Qed.

Lemma mName_set_name_c_string (n : option string) (k : Worker) :
  c_str (mName (set_name n k)) = mName (set_name n k) /\
  mName (set_name n k) <> EmptyString.
Proof.
  destruct (mName_set_name_cases n k) as [H | (buf & _ & Hc & H)]; rewrite H.
  - split; [apply c_str_default_name | apply default_name_not_empty].
  - split; [apply c_str_idempotent | apply c_str_not_empty; exact Hc].
Qed.

(** X1: whatever [name(n)] is given, and after construction, the name of a
    worker is never the empty string. *)
Theorem name_never_empty :
  forall (n : option string) (k : Worker) (parent : PoolPtr) (i : Z),
  name (set_name n k) <> EmptyString /\
  name (Worker_ctor parent i) <> EmptyString /\
  name (set_name n (Worker_ctor parent i)) <> EmptyString.
Proof.
  assert (H : forall n k, name (set_name n k) <> EmptyString).
  { intros n k. unfold name.
    destruct (mName_set_name_c_string n k) as [Hc Hne]. rewrite Hc. exact Hne. }
  intros n k parent i. split; [apply H | split; [| apply H]].
  unfold Worker_ctor. cbv zeta.
  change (name (set_mWorkThread (Spawned LambdaWorkLoop)
                  (set_name None (mkWorker parent i EmptyString AtomicStats_init
                                           [] NotAThread))))
    with (name (set_name None (mkWorker parent i EmptyString AtomicStats_init
                                        [] NotAThread))).
  apply H.
Qed.

Lemma set_mName_twice (a b : string) (k : Worker) :
  set_mName b (set_mName a k) = set_mName b k.
Proof. reflexivity. Qed.

Lemma set_mName_same (k : Worker) : set_mName (mName k) k = k.
Proof. destruct k; reflexivity. Qed.

Lemma set_name_overrides (n1 n2 : option string) (k : Worker) :
  set_name n2 (set_name n1 k) = set_name n2 k.
Proof.
  assert (Hid : mId (set_name n1 k) = mId k).
  { destruct n1 as [buf |]; simpl;
      [destruct (Ascii.eqb (first_char buf) NUL) |]; reflexivity. }
  assert (Hset : forall a, set_mName a (set_name n1 k) = set_mName a k).
  { intro a. destruct n1 as [buf |]; simpl;
      [destruct (Ascii.eqb (first_char buf) NUL) |]; reflexivity. }
  destruct n2 as [buf |]; simpl;
    [destruct (Ascii.eqb (first_char buf) NUL) |];
    rewrite ?Hid; apply Hset.
Qed.

(** X2: a call of [name(n)] replaces what an earlier call stored, passing
    what [name()] returns back to [name(n)] changes nothing, and
    [name(nullptr)] after any renaming gives back the default name. *)
Theorem name_calls_compose :
  forall (n1 n2 : option string) (k : Worker),
  set_name n2 (set_name n1 k) = set_name n2 k /\
  set_name (Some (name (set_name n1 k))) (set_name n1 k) = set_name n1 k /\
  name (set_name None (set_name n1 k)) =
    String.append "worker[" (String.append (show_int (id k)) "]") /\
  (forall (parent : PoolPtr) (i : Z),
     set_name None (set_name n1 (Worker_ctor parent i)) = Worker_ctor parent i).
Proof.
  intros n1 n2 k. split; [apply set_name_overrides | split; [| split]].
  - destruct (mName_set_name_c_string n1 k) as [Hc Hne].
    set (k' := set_name n1 k) in *.
    unfold name. rewrite Hc. unfold set_name.
    destruct (Ascii.eqb (first_char (mName k')) NUL) eqn:Hf.
    + apply Ascii.eqb_eq in Hf. apply c_str_empty_iff in Hf.
      rewrite Hc in Hf. contradiction.
    + rewrite Hc. apply set_mName_same.
  - rewrite set_name_overrides. unfold name. simpl. apply c_str_default_name.
  - intros parent i. rewrite set_name_overrides. reflexivity.
Qed.

Lemma append_length (a b : string) :
  String.length (String.append a b) = (String.length a + String.length b)%nat.
Proof.
  induction a as [| c a IH]; simpl; [reflexivity | rewrite IH; reflexivity].
Qed.

Lemma append_cancel_r (t : string) : forall a b : string,
  String.append a t = String.append b t -> a = b.
Proof.
  induction a as [| c a IH]; intros [| d b] H.
  - reflexivity.
  - apply (f_equal String.length) in H. simpl in H.
    rewrite append_length in H. lia.
  - apply (f_equal String.length) in H. simpl in H.
    rewrite append_length in H. lia.
  - simpl in H. injection H as Hc H. subst d. rewrite (IH b H). reflexivity.
Qed.

Lemma show_int_injective (a b : Z) : show_int a = show_int b -> a = b.
Proof.
  unfold show_int. intro H.
  assert (Hn : forall z, Z.to_int z <> Decimal.Pos Decimal.Nil /\
                         Z.to_int z <> Decimal.Neg Decimal.Nil).
  { intro z. destruct z as [| p | p]; simpl; split; try discriminate;
      intro Hp; injection Hp as Hp;
      exact (DecimalPos.Unsigned.to_uint_nonnil p Hp). }
  apply DecimalZ.to_int_inj.
  assert (Hs : Some (Z.to_int a) = Some (Z.to_int b)).
  { rewrite <- (NilZero.isi (Z.to_int a)) by apply Hn.
    rewrite <- (NilZero.isi (Z.to_int b)) by apply Hn.
    rewrite H. reflexivity. }
  injection Hs as Hs. exact Hs.
Qed.

Lemma default_name_injective (i j : Z) :
  default_name i = default_name j -> i = j.
Proof.
  unfold default_name. intro H. simpl in H. injection H as H.
  apply show_int_injective. exact (append_cancel_r _ _ _ H).
Qed.

(** X3: two workers have the same default name exactly when they were
    constructed with the same id, whatever pools they belong to. *)
Theorem default_names_equal_iff_ids_equal :
  forall (parent1 parent2 : PoolPtr) (i j : Z),
  name (Worker_ctor parent1 i) = name (Worker_ctor parent2 j) <-> i = j.
Proof.
  intros parent1 parent2 i j.
  assert (Hn : forall p a, name (Worker_ctor p a) = default_name a)
    by (intros p a; apply c_str_default_name).
  rewrite !Hn. split.
  - apply default_name_injective.
  - intro H. subst j. reflexivity.
Qed.

(** ** Snapshots *)

Lemma clock_monotone :
  (forall n, clock n <= clock (S n)) ->
  forall a b : nat, (a <= b)%nat -> clock a <= clock b.
Proof.
  intros Hc a b Hab. induction Hab as [| b Hab IH].
  - lia.
  - specialize (Hc b). lia.
Qed.




Lemma stats_effect (w : World) :
  eval stats w =
    mkStats (mMessages (mStats (self w))) (mRuns (mStats (self w)))
            (TimeCounter.value (clock (ticks w)) (mIdle (mStats (self w))))
            (TimeCounter.value (clock (S (ticks w))) (mActive (mStats (self w)))) /\
  exec stats w =
    mkWorld (self w) (env w) (S (S (ticks w))) (trace w) (history w).
Proof. split; reflexivity. Qed.


(** ** What the loop handles *)

Definition is_EXIT (m : Message) : bool :=
  match m with Message.EXIT => true | _ => false end.
Definition is_TASK (m : Message) : bool :=
  match m with Message.TASK => true | _ => false end.
Definition is_DUMP (m : Message) : bool :=
  match m with Message.DUMP => true | _ => false end.

(** The messages of [q] up to and including the first EXIT: those the loop
    dispatches. *)
Fixpoint handled (q : list Message) : list Message :=
  match q with
  | [] => []
  | m :: q' => if is_EXIT m then [m] else m :: handled q'
  end.

(** The messages of [q] behind the first EXIT. *)
Fixpoint left_over (q : list Message) : list Message :=
  match q with
  | [] => []
  | m :: q' => if is_EXIT m then q' else left_over q'
  end.

Lemma handled_left_over (q : list Message) : q = handled q ++ left_over q.
Proof.
  induction q as [| m q IH]; simpl; [reflexivity |].
  destruct (is_EXIT m); simpl; [reflexivity | rewrite <- IH; reflexivity].
Qed.

Lemma handled_without_EXIT (q : list Message) :
  existsb is_EXIT q = false -> handled q = q /\ left_over q = [].
Proof.
  induction q as [| m q IH]; simpl; intro H; [split; reflexivity |].
  apply orb_false_iff in H. destruct H as [Hm Hq]. rewrite Hm.
  destruct (IH Hq) as [H1 H2]. rewrite H1, H2. split; reflexivity.
Qed.

Lemma handled_through_EXIT (q q' : list Message) :
  existsb is_EXIT q = false ->
  handled (q ++ Message.EXIT :: q') = q ++ [Message.EXIT] /\
  left_over (q ++ Message.EXIT :: q') = q'.
Proof.
  induction q as [| m q IH]; simpl; intro H; [split; reflexivity |].
  apply orb_false_iff in H. destruct H as [Hm Hq]. rewrite Hm.
  destruct (IH Hq) as [H1 H2]. rewrite H1, H2. split; reflexivity.
Qed.

Lemma dispatch_result (m : Message) (w : World) :
  eval (dispatch m) w = if is_EXIT m then FINISH else CONTINUE.
Proof.
  destruct m; simpl; try reflexivity. apply onTask_result.
Qed.

Lemma dispatch_runs (m : Message) (w : World) :
  let r := mRuns (mStats (self w)) in
  let r' := mRuns (mStats (self (exec (dispatch m) w))) in
  (is_TASK m = false -> r' = r) /\
  (r' = r \/ r' = fetch_add r 1).
Proof.
  cbv zeta. destruct m; simpl dispatch.
  - split; [| left]; reflexivity.
  - split; [| left]; reflexivity.
  - split; [discriminate |].
    destruct (Pool_task (mParent (self w)) (env w)) as [[t |] e] eqn:Hpool.
    + rewrite (onTask_claimed w t e Hpool). right. reflexivity.
    + rewrite (onTask_empty w e Hpool). left. reflexivity.
  - destruct (onDump_keeps_statistics w) as (_ & Hs & _). rewrite Hs.
    split; [| left]; reflexivity.
Qed.

Lemma dispatch_outside (m : Message) (w : World) :
  (is_DUMP m = false -> trace (exec (dispatch m) w) = trace w /\
                        ticks (exec (dispatch m) w) = ticks w) /\
  (is_TASK m = false -> env (exec (dispatch m) w) = env w).
Proof.
  destruct m; simpl dispatch; (split; [intro H | intro H]);
    try discriminate; try (split; reflexivity); try reflexivity.
  destruct (Pool_task (mParent (self w)) (env w)) as [[t |] e] eqn:Hpool.
  - rewrite (onTask_claimed w t e Hpool). split; reflexivity.
  - rewrite (onTask_empty w e Hpool). split; reflexivity.
Qed.

(** The parts of the worker that a turn of the loop keeps. *)
Definition same_identity (k k' : Worker) : Prop :=
  mName k' = mName k /\ mId k' = mId k /\ mParent k' = mParent k /\
  mWorkThread k' = mWorkThread k.

Lemma onBeforeMessage_outside (w : World) :
  same_identity (self w) (self (exec onBeforeMessage w)) /\
  mMsgQueue (self (exec onBeforeMessage w)) = mMsgQueue (self w) /\
  env (exec onBeforeMessage w) = env w /\
  trace (exec onBeforeMessage w) = trace w.
Proof. unfold same_identity. repeat split; reflexivity. Qed.

Lemma onAfterMessage_outside (w : World) :
  same_identity (self w) (self (exec onAfterMessage w)) /\
  mMsgQueue (self (exec onAfterMessage w)) = mMsgQueue (self w) /\
  env (exec onAfterMessage w) = env w /\
  trace (exec onAfterMessage w) = trace w.
Proof. unfold same_identity. repeat split; reflexivity. Qed.

Lemma dequeue_outside (q : list Message) (w : World) :
  same_identity (self w) (self (set_self (set_mMsgQueue q) w)) /\
  mMsgQueue (self (set_self (set_mMsgQueue q) w)) = q /\
  env (set_self (set_mMsgQueue q) w) = env w /\
  trace (set_self (set_mMsgQueue q) w) = trace w.
Proof. unfold same_identity. repeat split; reflexivity. Qed.

Lemma same_identity_trans (a b c : Worker) :
  same_identity a b -> same_identity b c -> same_identity a c.
Proof.
  unfold same_identity.
  intros (H1 & H2 & H3 & H4) (K1 & K2 & K3 & K4).
  repeat split; congruence.
Qed.

Lemma exec_loop_on_cons (m : Message) (q : list Message) (w : World) :
  let w2 := exec (dispatch m)
                 (exec onBeforeMessage (set_self (set_mMsgQueue q) w)) in
  exec (loop_on (m :: q)) w =
    (if is_EXIT m then w2 else exec (loop_on q) (exec onAfterMessage w2)) /\
  eval (loop_on (m :: q)) w =
    (if is_EXIT m then Returned else eval (loop_on q) (exec onAfterMessage w2)).
Proof.
  cbv zeta. unfold exec at 1, eval at 1. rewrite loop_on_cons. cbv zeta.
  rewrite (dispatch_result m). destruct (is_EXIT m); split; reflexivity.
Qed.

(** One turn of the loop from outside: what it keeps, and what only a DUMP
    or only a TASK changes. *)
Lemma turn_outside (m : Message) (q : list Message) (w : World) :
  let w2 := exec (dispatch m)
                 (exec onBeforeMessage (set_self (set_mMsgQueue q) w)) in
  same_identity (self w) (self w2) /\
  mMsgQueue (self w2) = q /\
  (is_DUMP m = false -> trace w2 = trace w) /\
  (is_TASK m = false -> env w2 = env w).
Proof.
  cbv zeta.
  destruct (dequeue_outside q w) as (I0 & Q0 & E0 & T0).
  destruct (onBeforeMessage_outside (set_self (set_mMsgQueue q) w))
    as (I1 & Q1 & E1 & T1).
  destruct (dispatch_frame m (exec onBeforeMessage (set_self (set_mMsgQueue q) w)))
    as (_ & _ & _ & Q2 & Ht2 & Hn2 & Hi2 & Hp2).
  destruct (dispatch_outside m (exec onBeforeMessage (set_self (set_mMsgQueue q) w)))
    as [T2 E2].
  split; [| split; [| split]].
  - eapply same_identity_trans; [exact I0 |].
    eapply same_identity_trans; [exact I1 |].
    unfold same_identity. repeat split; assumption.
  - rewrite Q2, Q1. exact Q0.
  - intro Hd. rewrite (proj1 (T2 Hd)), T1. exact T0.
  - intro Ht. rewrite (E2 Ht), E1. exact E0.
Qed.

Lemma loop_on_outside (q : list Message) : forall w : World,
  let w' := exec (loop_on q) w in
  same_identity (self w) (self w') /\
  mMsgQueue (self w') =
    match q with [] => mMsgQueue (self w) | _ :: _ => left_over q end /\
  eval (loop_on q) w = (if existsb is_EXIT q then Returned else Blocked) /\
  (existsb is_DUMP (handled q) = false -> trace w' = trace w) /\
  (existsb is_TASK (handled q) = false -> env w' = env w).
Proof.
  induction q as [| m q IH]; intro w; cbv zeta.
  - unfold same_identity. repeat split; reflexivity.
  - destruct (turn_outside m q w) as (I2 & Q2 & T2 & E2).
    unfold exec at 1 2 3 4, eval. rewrite loop_on_cons. cbv zeta.
    rewrite (dispatch_result m).
    set (w2 := exec (dispatch m)
                    (exec onBeforeMessage (set_self (set_mMsgQueue q) w))) in *.
    cbn [handled left_over existsb].
    destruct (is_EXIT m) eqn:Hm; cbn [orb fst snd].
    + (* EXIT: the loop returns *)
      split; [exact I2 |]. split; [exact Q2 |]. split; [reflexivity |].
      destruct m; try discriminate. cbn [existsb is_DUMP is_TASK orb].
      split; intros _; [apply T2 | apply E2]; reflexivity.
    + destruct (onAfterMessage_outside w2) as (I3 & Q3 & E3 & T3).
      destruct (IH (exec onAfterMessage w2)) as (I4 & Q4 & R4 & T4 & E4).
      fold (exec (loop_on q) (exec onAfterMessage w2)).
      fold (eval (loop_on q) (exec onAfterMessage w2)).
      set (w4 := exec (loop_on q) (exec onAfterMessage w2)) in *.
      split; [| split; [| split; [exact R4 | split]]].
      * eapply same_identity_trans; [exact I2 |].
        eapply same_identity_trans; [exact I3 | exact I4].
      * destruct q; [rewrite Q4, Q3; exact Q2 | exact Q4].
      * intro H. apply orb_false_iff in H. destruct H as [H1 H2].
        rewrite (T4 H2), T3. apply T2. exact H1.
      * intro H. apply orb_false_iff in H. destruct H as [H1 H2].
        rewrite (E4 H2), E3. apply E2. exact H1.
Qed.

(** One turn of the loop on the counters. *)
Lemma turn_counters (m : Message) (q : list Message) (w : World) :
  0 <= mRuns (mStats (self w)) <= mMessages (mStats (self w)) ->
  mMessages (mStats (self w)) + 1 < 2 ^ counter_bits ->
  let s := mStats (self w) in
  let w2 := exec (dispatch m)
                 (exec onBeforeMessage (set_self (set_mMsgQueue q) w)) in
  let s2 := mStats (self w2) in
  let s3 := mStats (self (exec onAfterMessage w2)) in
  mMessages s2 = mMessages s + 1 /\
  mRuns s <= mRuns s2 <= mRuns s + (if is_TASK m then 1 else 0) /\
  mMessages s3 = mMessages s2 /\ mRuns s3 = mRuns s2.
Proof.
  intros Hinv Hroom. cbv zeta.
  destruct (onBeforeMessage_continues (set_self (set_mMsgQueue q) w))
    as (_ & Hm1 & Hr1); [exact Hinv | exact Hroom |].
  change (mStats (self (set_self (set_mMsgQueue q) w)))
    with (mStats (self w)) in Hm1, Hr1.
  destruct (dispatch_frame m (exec onBeforeMessage (set_self (set_mMsgQueue q) w)))
    as (_ & _ & Hm2 & _).
  destruct (dispatch_runs m (exec onBeforeMessage (set_self (set_mMsgQueue q) w)))
    as [Hr2 Hr2'].
  assert (Hf : fetch_add (mRuns (mStats (self w))) 1 = mRuns (mStats (self w)) + 1)
    by (apply fetch_add_small; lia).
  rewrite Hr1 in Hr2, Hr2'. rewrite Hf in Hr2'.
  set (w2 := exec (dispatch m)
                  (exec onBeforeMessage (set_self (set_mMsgQueue q) w))) in *.
  assert (HM : mMessages (mStats (self w2)) = mMessages (mStats (self w)) + 1)
    by (rewrite Hm2; exact Hm1).
  assert (HR : mRuns (mStats (self w)) <= mRuns (mStats (self w2))
               <= mRuns (mStats (self w)) + (if is_TASK m then 1 else 0)).
  { destruct (is_TASK m); [lia | rewrite (Hr2 eq_refl); lia]. }
  destruct (onAfterMessage_continues w2) as (_ & Hm3 & Hr3);
    [destruct (is_TASK m); lia |].
  repeat split; try assumption; lia.
Qed.

Lemma loop_on_accounting (q : list Message) : forall w : World,
  0 <= mRuns (mStats (self w)) <= mMessages (mStats (self w)) ->
  mMessages (mStats (self w)) + Z.of_nat (List.length q) < 2 ^ counter_bits ->
  let s := mStats (self w) in
  let s' := mStats (self (exec (loop_on q) w)) in
  mMessages s' = mMessages s + Z.of_nat (List.length (handled q)) /\
  mRuns s <= mRuns s' <=
    mRuns s + Z.of_nat (List.length (filter is_TASK (handled q))).
Proof.
  induction q as [| m q IH]; intros w Hinv Hroom; cbv zeta.
  - unfold exec. cbn [loop_on ret snd handled filter List.length]. lia.
  - change (List.length (m :: q)) with (S (List.length q)) in Hroom.
    rewrite Nat2Z.inj_succ in Hroom.
    destruct (turn_counters m q w Hinv ltac:(lia)) as (HM & HR & HM3 & HR3).
    rewrite (proj1 (exec_loop_on_cons m q w)).
    set (w2 := exec (dispatch m)
                    (exec onBeforeMessage (set_self (set_mMsgQueue q) w))) in *.
    cbn [handled].
    destruct (is_EXIT m) eqn:Hm.
    + assert (Ht : is_TASK m = false) by (destruct m; try discriminate; reflexivity).
      rewrite Ht in HR.
      cbn [filter List.length]. rewrite Ht. cbn [List.length].
      change (Z.of_nat 1) with 1. change (Z.of_nat 0) with 0. lia.
    + cbn [filter List.length]. rewrite Nat2Z.inj_succ.
      destruct (is_TASK m) eqn:Ht;
        (destruct (IH (exec onAfterMessage w2)) as [HM4 HR4]; [lia | lia |]);
        set (w4 := exec (loop_on q) (exec onAfterMessage w2)) in *;
        cbn [List.length]; rewrite ?Nat2Z.inj_succ; lia.
Qed.

Lemma filter_none {A} (f : A -> bool) (l : list A) :
  existsb f l = false -> filter f l = [].
Proof.
  induction l as [| x l IH]; simpl; intro H; [reflexivity |].
  apply orb_false_iff in H. destruct H as [H1 H2].
  rewrite H1. exact (IH H2).
Qed.

(** X6: the message counter advances by exactly the number of messages the
    loop dispatches, those up to and including the first EXIT, and the run
    counter by at most the number of TASK messages among them, as long as
    the message counter stays within the range of its integer type. *)
Theorem loop_counts_each_dispatched_message_once :
  forall (q : list Message) (w : World),
  0 <= mRuns (mStats (self w)) <= mMessages (mStats (self w)) ->
  mMessages (mStats (self w)) + Z.of_nat (List.length q) < 2 ^ counter_bits ->
  let s := mStats (self w) in
  let s' := mStats (self (exec (loop_on q) w)) in
  mMessages s' = mMessages s + Z.of_nat (List.length (handled q)) /\
  mRuns s <= mRuns s' <=
    mRuns s + Z.of_nat (List.length (filter is_TASK (handled q))) /\
  (existsb is_TASK (handled q) = false -> mRuns s' = mRuns s) /\
  (existsb is_EXIT q = false ->
   mMessages s' = mMessages s + Z.of_nat (List.length q)).
Proof.
  intros q w Hinv Hroom s s'. subst s s'.
  destruct (loop_on_accounting q w Hinv Hroom) as [HM HR].
  split; [exact HM | split; [exact HR | split]].
  - intro Hno. pose proof (filter_none is_TASK (handled q) Hno) as Hnil.
    rewrite Hnil in HR. simpl in HR. lia.
  - intro Hno. destruct (handled_without_EXIT q Hno) as [Hh _].
    rewrite Hh in HM. exact HM.
Qed.

Lemma dispatch_commutes_with_mailbox (m : Message) (q : list Message) (w : World) :
  exec (dispatch m) (set_self (set_mMsgQueue q) w) =
  set_self (set_mMsgQueue q) (exec (dispatch m) w).
Proof.
  destruct m; simpl dispatch; try reflexivity.
  destruct (Pool_task (mParent (self w)) (env w)) as [[t |] e] eqn:Hpool.
  - rewrite (onTask_claimed w t e Hpool).
    rewrite (onTask_claimed (set_self (set_mMsgQueue q) w) t e Hpool).
    reflexivity.
  - rewrite (onTask_empty w e Hpool).
    rewrite (onTask_empty (set_self (set_mMsgQueue q) w) e Hpool).
    reflexivity.
Qed.

Lemma loop_on_overwrites_mailbox (m : Message) (q x : list Message) (w : World) :
  loop_on (m :: q) (set_self (set_mMsgQueue x) w) = loop_on (m :: q) w.
Proof. rewrite !loop_on_cons. reflexivity. Qed.

Lemma loop_on_ignores_tail (q1 q2 : list Message) : forall w : World,
  existsb is_EXIT q1 = false ->
  exec (loop_on (q1 ++ Message.EXIT :: q2)) w =
  set_self (set_mMsgQueue q2) (exec (loop_on (q1 ++ [Message.EXIT])) w).
Proof.
  induction q1 as [| m q1 IH]; intros w Hno.
  - unfold exec. simpl app. rewrite !loop_on_cons. reflexivity.
  - simpl in Hno. apply orb_false_iff in Hno. destruct Hno as [Hm Hq].
    unfold exec. rewrite <- !app_comm_cons, !loop_on_cons. cbv zeta.
    rewrite !dispatch_result, Hm.
    fold (exec (loop_on (q1 ++ Message.EXIT :: q2))
               (exec onAfterMessage (exec (dispatch m)
                  (exec onBeforeMessage
                     (set_self (set_mMsgQueue (q1 ++ Message.EXIT :: q2)) w))))).
    rewrite IH by exact Hq. f_equal.
    change (exec onBeforeMessage (set_self (set_mMsgQueue (q1 ++ Message.EXIT :: q2)) w))
      with (set_self (set_mMsgQueue (q1 ++ Message.EXIT :: q2))
                     (exec onBeforeMessage w)).
    change (exec onBeforeMessage (set_self (set_mMsgQueue (q1 ++ [Message.EXIT])) w))
      with (set_self (set_mMsgQueue (q1 ++ [Message.EXIT]))
                     (exec onBeforeMessage w)).
    rewrite !dispatch_commutes_with_mailbox.
    set (w2 := exec (dispatch m) (exec onBeforeMessage w)).
    change (exec onAfterMessage (set_self (set_mMsgQueue (q1 ++ Message.EXIT :: q2)) w2))
      with (set_self (set_mMsgQueue (q1 ++ Message.EXIT :: q2))
                     (exec onAfterMessage w2)).
    change (exec onAfterMessage (set_self (set_mMsgQueue (q1 ++ [Message.EXIT])) w2))
      with (set_self (set_mMsgQueue (q1 ++ [Message.EXIT]))
                     (exec onAfterMessage w2)).
    unfold exec at 1 3.
    destruct q1 as [| m' q1]; simpl app; rewrite !loop_on_overwrites_mailbox;
      reflexivity.
Qed.

Lemma In_EXIT_iff (l : list Message) :
  existsb is_EXIT l = true <-> In Message.EXIT l.
Proof.
  rewrite existsb_exists. split.
  - intros (x & Hx & Hx'). destruct x; try discriminate. exact Hx.
  - intro H. exists Message.EXIT. split; [exact H | reflexivity].
Qed.

Lemma not_In_EXIT_iff (l : list Message) :
  existsb is_EXIT l = false <-> ~ In Message.EXIT l.
Proof.
  split.
  - intros H Hin. apply In_EXIT_iff in Hin. congruence.
  - intro H. destruct (existsb is_EXIT l) eqn:E; [| reflexivity].
    exfalso. apply H, In_EXIT_iff, E.
Qed.

(** X7: the loop returns exactly when the mailbox holds an EXIT; the
    messages behind the first EXIT are never dispatched: they stay in the
    mailbox and everything else ends as if they had not been sent. Without
    an EXIT the loop uses the mailbox up and blocks. *)
Theorem loop_stops_at_first_EXIT :
  forall (m : Message) (q : list Message) (w : World),
  let w' := exec (loop_on (m :: q)) w in
  (eval (loop_on (m :: q)) w = Returned <-> In Message.EXIT (m :: q)) /\
  (eval (loop_on (m :: q)) w = Blocked <-> ~ In Message.EXIT (m :: q)) /\
  mMsgQueue (self w') = left_over (m :: q) /\
  m :: q = handled (m :: q) ++ mMsgQueue (self w') /\
  (~ In Message.EXIT (m :: q) -> mMsgQueue (self w') = []) /\
  (forall q1 q2, ~ In Message.EXIT q1 -> m :: q = q1 ++ Message.EXIT :: q2 ->
     w' = set_self (set_mMsgQueue q2) (exec (loop_on (q1 ++ [Message.EXIT])) w)).
Proof.
  intros m q w w'.
  destruct (loop_on_outside (m :: q) w) as (_ & Hq & Hr & _). fold w' in Hq.
  pose proof In_EXIT_iff as Hin. pose proof not_In_EXIT_iff as Hnin.
  split; [| split; [| split; [| split; [| split]]]].
  - rewrite Hr, <- Hin. destruct (existsb is_EXIT (m :: q)); split;
      try discriminate; reflexivity.
  - rewrite Hr, <- Hnin. destruct (existsb is_EXIT (m :: q)); split;
      try discriminate; reflexivity.
  - exact Hq.
  - rewrite Hq. apply handled_left_over.
  - intro Hno. apply Hnin in Hno. rewrite Hq.
    exact (proj2 (handled_without_EXIT _ Hno)).
  - intros q1 q2 Hno Heq. apply Hnin in Hno. subst w'. rewrite Heq.
    apply loop_on_ignores_tail. exact Hno.
Qed.

(** ** The output of the loop *)

(** The events of one critical section on [gDumpMutex] that writes [ws]. *)
Definition critical_section (ws : list string) : list IOEvent :=
  Lock gDumpMutex :: map Write ws ++ [Unlock gDumpMutex].

(** The strings one call of [onDump] writes, in order. *)
Definition dump_strings (n : string) (s : Stats) : list string :=
  [ "Thread: "; n; endl;
    "Number of tasks ran: "; show_int (runs s); endl;
    "Number of messages processed: "; show_int (messages s); endl;
    "Time active: "; show_int (active s); " milliseconds"; endl;
    "Time idle: "; show_int (idle s); " milliseconds"; endl ]%string.

Lemma onDump_trace (w : World) :
  trace (exec onDump w) =
  trace w ++ critical_section (dump_strings (name (self w)) (eval stats w)).
Proof.
  unfold critical_section, dump_strings. simpl. rewrite <- !app_assoc. reflexivity.
Qed.

Lemma tag_app (i : Tid) (a b : list IOEvent) :
  tag i (a ++ b) = tag i a ++ tag i b.
Proof. apply map_app. Qed.

Lemma dump_schedule_held_section (i : Tid) (ws : list string)
      (rest : list (Tid * IOEvent)) :
  dump_schedule (Some i) (tag i (map Write ws ++ [Unlock gDumpMutex]) ++ rest) =
  dump_schedule None rest.
Proof.
  induction ws as [| s ws IH]; cbn [map app tag dump_schedule].
  - rewrite Nat.eqb_refl. reflexivity.
  - rewrite Nat.eqb_refl. cbn [andb]. exact IH.
Qed.

Lemma dump_schedule_after_section (i : Tid) (ws : list string)
      (rest : list (Tid * IOEvent)) :
  dump_schedule None (tag i (critical_section ws) ++ rest) =
  dump_schedule None rest.
Proof.
  unfold critical_section.
  change (tag i (Lock gDumpMutex :: map Write ws ++ [Unlock gDumpMutex]) ++ rest)
    with ((i, Lock gDumpMutex)
            :: (tag i (map Write ws ++ [Unlock gDumpMutex]) ++ rest)).
  cbn [dump_schedule]. apply dump_schedule_held_section.
Qed.

Lemma dump_schedule_sections_then (i : Tid) (recs : list (list string))
      (rest : list (Tid * IOEvent)) :
  dump_schedule None (tag i (List.concat (map critical_section recs)) ++ rest) =
  dump_schedule None rest.
Proof.
  induction recs as [| ws recs IH]; cbn [map List.concat].
  - reflexivity.
  - rewrite tag_app, <- app_assoc, dump_schedule_after_section. exact IH.
Qed.

Lemma dump_schedule_sections (i : Tid) (recs : list (list string)) :
  dump_schedule None (tag i (List.concat (map critical_section recs))) = true.
Proof.
  rewrite <- (app_nil_r (tag i (List.concat (map critical_section recs)))).
  rewrite dump_schedule_sections_then. reflexivity.
Qed.

Lemma loop_on_trace (q : list Message) : forall w : World,
  exists recs : list (list string),
    trace (exec (loop_on q) w) = trace w ++ List.concat (map critical_section recs) /\
    List.length recs = List.length (filter is_DUMP (handled q)).
Proof.
  induction q as [| m q IH]; intro w.
  - exists []. split; [simpl; rewrite app_nil_r |]; reflexivity.
  - unfold exec. rewrite loop_on_cons. cbv zeta.
    set (w1 := exec onBeforeMessage (set_self (set_mMsgQueue q) w)).
    assert (Hstep : exists recs1,
              trace (exec (dispatch m) w1) =
                trace w ++ List.concat (map critical_section recs1) /\
              List.length recs1 = List.length (filter is_DUMP [m])).
    { destruct (is_DUMP m) eqn:Hd.
      - destruct m; try discriminate. simpl dispatch.
        exists [dump_strings (name (self w1)) (eval stats w1)].
        split; [| reflexivity].
        rewrite (onDump_trace w1). cbn [map List.concat].
        rewrite app_nil_r. reflexivity.
      - exists []. split; [| simpl; rewrite Hd; reflexivity].
        rewrite (proj1 (proj1 (dispatch_outside m w1) Hd)).
        simpl. rewrite app_nil_r. reflexivity. }
    destruct Hstep as (recs1 & Htr1 & Hlen1).
    rewrite (dispatch_result m w1).
    set (w2 := exec (dispatch m) w1) in *.
    simpl handled. destruct (is_EXIT m) eqn:Hm.
    + exists recs1. split; [exact Htr1 | exact Hlen1].
    + set (w3 := exec onAfterMessage w2).
      destruct (IH w3) as (recs & Htr & Hlen).
      fold (exec (loop_on q) w3).
      change (trace w3) with (trace w2) in Htr.
      exists (recs1 ++ recs). split.
      * rewrite Htr, Htr1, map_app, concat_app, app_assoc. reflexivity.
      * rewrite length_app, Hlen, Hlen1. simpl.
        destruct (is_DUMP m); reflexivity.
Qed.

(** X9: as long as no TASK is dispatched, so that no callable of a task
    runs on the thread, the worker writes to [std::cerr] only while it
    holds [gDumpMutex] and has released the mutex when the loop blocks or
    returns: the events of the thread are one complete critical section
    per dispatched DUMP, and nothing else. *)
Theorem loop_writes_only_under_gDumpMutex :
  forall (q : list Message) (w : World) (i : Tid),
  existsb is_TASK (handled q) = false ->
  exists recs : list (list string),
    trace (exec (loop_on q) w) = trace w ++ List.concat (map critical_section recs) /\
    List.length recs = List.length (filter is_DUMP (handled q)) /\
    env (exec (loop_on q) w) = env w /\
    dump_schedule None (tag i (List.concat (map critical_section recs))) = true /\
    (forall rest : list (Tid * IOEvent),
       dump_schedule None (tag i (List.concat (map critical_section recs)) ++ rest) =
       dump_schedule None rest).
Proof.
  intros q w i Hno. destruct (loop_on_trace q w) as (recs & Htr & Hlen).
  exists recs. split; [exact Htr | split; [exact Hlen | split; [| split]]].
  - exact (proj2 (proj2 (proj2 (proj2 (loop_on_outside q w)))) Hno).
  - apply dump_schedule_sections.
  - intro rest. apply dump_schedule_sections_then.
Qed.

(** ** Time accounting *)

(** The timers of a worker in phase [p], on a clock whose reading was [c0]
    when the idle timer was first started: both totals are non-negative,
    exactly the timer of the phase is started, at a reading [m] that is
    not in the future, and the time accounted so far fits between [c0] and
    [m]. *)
Definition timing (c0 : Z) (p : Phase) (w : World) : Prop :=
  let s := mStats (self w) in
  0 <= TimeCounter.total (mIdle s) /\
  0 <= TimeCounter.total (mActive s) /\
  exists m : Z,
    match p with
    | Idle => TimeCounter.marker (mIdle s) = Some m /\
              TimeCounter.marker (mActive s) = None
    | Active => TimeCounter.marker (mIdle s) = None /\
                TimeCounter.marker (mActive s) = Some m
    end /\
    m <= clock (ticks w) /\
    TimeCounter.total (mIdle s) + TimeCounter.total (mActive s) <= m - c0.

Definition totals_grow (w w' : World) : Prop :=
  TimeCounter.total (mIdle (mStats (self w))) <=
    TimeCounter.total (mIdle (mStats (self w'))) /\
  TimeCounter.total (mActive (mStats (self w))) <=
    TimeCounter.total (mActive (mStats (self w'))).

(** One turn of the loop does the same whatever the mailbox holds. *)
Lemma turn_commutes_with_mailbox (m : Message) (x : list Message) (w : World) :
  exec onAfterMessage (exec (dispatch m)
    (exec onBeforeMessage (set_self (set_mMsgQueue x) w))) =
  set_self (set_mMsgQueue x)
    (exec onAfterMessage (exec (dispatch m) (exec onBeforeMessage w))).
Proof.
  change (exec onBeforeMessage (set_self (set_mMsgQueue x) w))
    with (set_self (set_mMsgQueue x) (exec onBeforeMessage w)).
  rewrite dispatch_commutes_with_mailbox. reflexivity.
Qed.

(** Handling [q1] and then the messages sent behind it is handling them
    all, as long as the loop has not returned. *)
Lemma loop_on_app (q1 : list Message) (m : Message) (q2 : list Message) :
  forall w : World,
  existsb is_EXIT q1 = false ->
  exec (loop_on (q1 ++ m :: q2)) w =
  exec (loop_on (m :: q2)) (exec (loop_on q1) w).
Proof.
  induction q1 as [| x q1 IH]; intros w Hno.
  - reflexivity.
  - simpl in Hno. apply orb_false_iff in Hno. destruct Hno as [Hx Hq].
    rewrite <- app_comm_cons.
    rewrite (proj1 (exec_loop_on_cons x (q1 ++ m :: q2) w)), Hx.
    rewrite (proj1 (exec_loop_on_cons x q1 w)), Hx.
    rewrite IH by exact Hq.
    rewrite !turn_commutes_with_mailbox.
    set (w3 := exec onAfterMessage (exec (dispatch x) (exec onBeforeMessage w))).
    destruct q1 as [| y q1].
    + change (exec (loop_on []) (set_self (set_mMsgQueue ([] ++ m :: q2)) w3))
        with (set_self (set_mMsgQueue ([] ++ m :: q2)) w3).
      change (exec (loop_on []) (set_self (set_mMsgQueue []) w3))
        with (set_self (set_mMsgQueue []) w3).
      unfold exec. rewrite !loop_on_overwrites_mailbox. reflexivity.
    + unfold exec at 2 4. rewrite !loop_on_overwrites_mailbox. reflexivity.
Qed.

Lemma first_EXIT_split (q : list Message) :
  existsb is_EXIT q = true ->
  exists a b : list Message,
    existsb is_EXIT a = false /\ q = a ++ Message.EXIT :: b.
Proof.
  induction q as [| m q IH]; simpl; intro H; [discriminate |].
  destruct (is_EXIT m) eqn:Hm.
  - destruct m; try discriminate. exists [], q. split; reflexivity.
  - destruct (IH H) as (a & b & Ha & Hq). exists (m :: a), b.
    split; [simpl; rewrite Hm; exact Ha | rewrite Hq; reflexivity].
Qed.

Section MonotoneClock.

Hypothesis clock_never_goes_back : forall n : nat, clock n <= clock (S n).

Lemma onBeforeMessage_timing (c0 : Z) (w : World) :
  timing c0 Idle w ->
  timing c0 Active (exec onBeforeMessage w) /\
  totals_grow w (exec onBeforeMessage w).
Proof.
  intros (Hi & Ha & m & (Hmi & Hma) & Hm & Hsum).
  destruct (onBeforeMessage_effect w) as (Hs & Ht & _).
  pose proof (clock_never_goes_back (ticks w)) as H1.
  pose proof (clock_never_goes_back (S (ticks w))) as H2.
  unfold timing, totals_grow. cbv zeta. rewrite Hs, Ht.
  unfold TimeCounter.stop, TimeCounter.start. rewrite Hmi. simpl.
  split; [| lia].
  split; [lia | split; [lia |]].
  exists (clock (S (ticks w))). repeat split; lia.
Qed.

Lemma onAfterMessage_timing (c0 : Z) (w : World) :
  timing c0 Active w ->
  timing c0 Idle (exec onAfterMessage w) /\
  totals_grow w (exec onAfterMessage w).
Proof.
  intros (Hi & Ha & m & (Hmi & Hma) & Hm & Hsum).
  destruct (onAfterMessage_effect w) as (Hs & Ht & _).
  pose proof (clock_never_goes_back (ticks w)) as H1.
  pose proof (clock_never_goes_back (S (ticks w))) as H2.
  unfold timing, totals_grow. cbv zeta. rewrite Hs, Ht.
  unfold TimeCounter.stop, TimeCounter.start. rewrite Hma. simpl.
  split; [| lia].
  split; [lia | split; [lia |]].
  exists (clock (S (ticks w))). repeat split; lia.
Qed.

Lemma dispatch_ticks (m : Message) (w : World) :
  (ticks w <= ticks (exec (dispatch m) w))%nat.
Proof.
  destruct (is_DUMP m) eqn:Hd.
  - destruct m; try discriminate. simpl. lia.
  - rewrite (proj2 (proj1 (dispatch_outside m w) Hd)). lia.
Qed.

Lemma dispatch_timing (c0 : Z) (p : Phase) (m : Message) (w : World) :
  timing c0 p w ->
  timing c0 p (exec (dispatch m) w) /\ totals_grow w (exec (dispatch m) w).
Proof.
  intros (Hi & Ha & x & Hp & Hx & Hsum).
  destruct (dispatch_frame m w) as (Hfi & Hfa & _).
  pose proof (clock_monotone clock_never_goes_back _ _ (dispatch_ticks m w)) as Hc.
  unfold timing, totals_grow. cbv zeta. rewrite Hfi, Hfa.
  split; [| lia].
  split; [exact Hi | split; [exact Ha |]].
  exists x. split; [exact Hp | split; [lia | exact Hsum]].
Qed.

Lemma totals_grow_trans (a b c : World) :
  totals_grow a b -> totals_grow b c -> totals_grow a c.
Proof. unfold totals_grow. lia. Qed.

Lemma dequeue_timing (c0 : Z) (p : Phase) (q : list Message) (w : World) :
  timing c0 p w ->
  timing c0 p (set_self (set_mMsgQueue q) w) /\
  totals_grow w (set_self (set_mMsgQueue q) w).
Proof.
  intro H. split; [exact H |]. unfold totals_grow. cbn. lia.
Qed.

Lemma loop_on_timing (c0 : Z) (q : list Message) : forall w : World,
  timing c0 Idle w ->
  timing c0 (match eval (loop_on q) w with Blocked => Idle | Returned => Active end)
         (exec (loop_on q) w) /\
  totals_grow w (exec (loop_on q) w).
Proof.
  induction q as [| m q IH]; intros w Hw.
  - split; [exact Hw |]. unfold totals_grow, exec. cbn [loop_on ret snd]. lia.
  - destruct (exec_loop_on_cons m q w) as [Hx Hv]. rewrite Hx, Hv. clear Hx Hv.
    destruct (dequeue_timing c0 Idle q w Hw) as [H0 G0].
    destruct (onBeforeMessage_timing c0 _ H0) as [H1 G1].
    destruct (dispatch_timing c0 Active m _ H1) as [H2 G2].
    set (w2 := exec (dispatch m)
                    (exec onBeforeMessage (set_self (set_mMsgQueue q) w))) in *.
    assert (G02 : totals_grow w w2).
    { eapply totals_grow_trans; [exact G0 |].
      eapply totals_grow_trans; [exact G1 | exact G2]. }
    destruct (is_EXIT m).
    + split; [exact H2 | exact G02].
    + destruct (onAfterMessage_timing c0 w2 H2) as [H3 G3].
      destruct (IH _ H3) as [H4 G4].
      split; [exact H4 |].
      eapply totals_grow_trans; [exact G02 |].
      eapply totals_grow_trans; [exact G3 | exact G4].
Qed.

Lemma stats_within_elapsed (c0 : Z) (p : Phase) (w : World) :
  timing c0 p w ->
  let s := eval stats w in
  0 <= idle s /\ 0 <= active s /\
  idle s + active s <= clock (S (ticks w)) - c0.
Proof.
  intros (Hi & Ha & m & Hp & Hm & Hsum).
  destruct (stats_effect w) as [Hs _]. cbv zeta. rewrite Hs. simpl.
  pose proof (clock_never_goes_back (ticks w)) as H1.
  unfold TimeCounter.value.
  destruct p; destruct Hp as [Hp1 Hp2]; rewrite Hp1, Hp2; lia.
Qed.

(** Between the point where the thread has handled [q1] and the point
    where it has handled [q1] and the messages [q2] sent behind it. *)
Lemma loop_on_totals_between (c0 : Z) (q1 q2 : list Message) (w : World) :
  timing c0 Idle w ->
  totals_grow (exec (loop_on q1) w) (exec (loop_on (q1 ++ q2)) w).
Proof.
  intro Hw. destruct (existsb is_EXIT q1) eqn:E.
  - destruct (first_EXIT_split q1 E) as (a & b & Ha & ->).
    replace ((a ++ Message.EXIT :: b) ++ q2)
      with (a ++ Message.EXIT :: (b ++ q2))
      by (rewrite <- app_assoc; reflexivity).
    rewrite (loop_on_ignores_tail a b w Ha).
    rewrite (loop_on_ignores_tail a (b ++ q2) w Ha).
    unfold totals_grow. cbn [self set_self mStats set_mMsgQueue]. lia.
  - destruct q2 as [| m q2].
    + rewrite app_nil_r. unfold totals_grow. lia.
    + rewrite (loop_on_app q1 m q2 w E).
      destruct (loop_on_timing c0 q1 w Hw) as [H1 _].
      rewrite (proj1 (proj2 (proj2 (loop_on_outside q1 w)))), E in H1.
      exact (proj2 (loop_on_timing c0 (m :: q2) _ H1)).
Qed.

(** X10: on a clock that never goes back, take a new worker, the point
    where its thread has handled the messages [q1] and the later point
    where it has also handled the messages [q2] sent behind them. The idle
    and the active time accumulated at the later point are no less than at
    the earlier one; at every such point the accumulated times and the
    idle and active times of a snapshot are non-negative, and the two
    times of the snapshot together do not exceed the time that passed on
    the clock since [WorkLoop] started the idle timer. *)
Theorem worker_never_accounts_more_time_than_passed :
  forall (w : World) (q1 q2 : list Message),
  mStats (self w) = AtomicStats_init ->
  let w0 := exec (TimeCounter_start AtomicStats_idle) w in
  let w1 := exec (loop_on q1) w0 in
  let w2 := exec (loop_on (q1 ++ q2)) w0 in
  let s := eval stats w1 in
  exec WorkLoop w = exec (loop_on (mMsgQueue (self w))) w0 /\
  TimeCounter.total (mIdle (mStats (self w1))) <=
    TimeCounter.total (mIdle (mStats (self w2))) /\
  TimeCounter.total (mActive (mStats (self w1))) <=
    TimeCounter.total (mActive (mStats (self w2))) /\
  0 <= TimeCounter.total (mIdle (mStats (self w1))) /\
  0 <= TimeCounter.total (mActive (mStats (self w1))) /\
  0 <= idle s /\ 0 <= active s /\
  idle s + active s <= clock (S (ticks w1)) - clock (ticks w).
Proof.
  intros w q1 q2 Hfresh w0 w1 w2 s.
  assert (HW : exec WorkLoop w = exec (loop_on (mMsgQueue (self w))) w0).
  { subst w0. unfold exec at 1, WorkLoop, bind.
    rewrite (run_eq (TimeCounter_start AtomicStats_idle)).
    unfold SignalingQueue_loop, bind, this. reflexivity. }
  assert (H0 : timing (clock (ticks w)) Idle w0).
  { unfold timing. cbv zeta. subst w0. simpl. rewrite Hfresh. simpl.
    pose proof (clock_never_goes_back (ticks w)).
    split; [lia | split; [lia |]].
    exists (clock (ticks w)). repeat split; lia. }
  destruct (loop_on_timing (clock (ticks w)) q1 w0 H0) as [H1 _].
  destruct (loop_on_totals_between (clock (ticks w)) q1 q2 w0 H0) as [Gi Ga].
  fold w1 in H1, Gi, Ga. fold w2 in Gi, Ga.
  split; [exact HW |]. split; [exact Gi |]. split; [exact Ga |].
  split; [exact (proj1 H1) |]. split; [exact (proj1 (proj2 H1)) |].
  exact (stats_within_elapsed _ _ w1 H1).
Qed.

End MonotoneClock.

(** ** Destruction with messages pending *)

Lemma thread_run_Waiting_world (w : World) :
  mWorkThread (self w) = Waiting ->
  exec thread_run w =
  set_self (set_mWorkThread (after_exit (eval (loop_on (mMsgQueue (self w))) w)))
           (exec (loop_on (mMsgQueue (self w))) w).
Proof.
  intro Hw. unfold thread_run, exec at 1, bind, this. rewrite Hw.
  unfold SignalingQueue_loop, bind, this.
  rewrite (run_eq (loop_on (mMsgQueue (self w)))). reflexivity.
Qed.

Lemma left_over_app (q l : list Message) :
  existsb is_EXIT q = true -> left_over (q ++ l) = left_over q ++ l.
Proof.
  induction q as [| m q IH]; simpl; [discriminate |].
  destruct (is_EXIT m); simpl; [reflexivity | exact IH].
Qed.

Lemma handled_app (q l : list Message) :
  existsb is_EXIT q = true -> handled (q ++ l) = handled q.
Proof.
  induction q as [| m q IH]; simpl; [discriminate |].
  destruct (is_EXIT m); simpl; [reflexivity |].
  intro H. rewrite (IH H). reflexivity.
Qed.

(** X11: the destructor does not cut pending work short. Every message that
    was in the mailbox of a waiting worker before the destructor's EXIT is
    dispatched before the join returns, unless an earlier EXIT stops the
    loop first; in that case the destructor's own EXIT stays in the
    mailbox, never received. *)
Theorem destructor_handles_pending_messages_first :
  forall w : World,
  mWorkThread (self w) = Waiting ->
  0 <= mRuns (mStats (self w)) <= mMessages (mStats (self w)) ->
  mMessages (mStats (self w)) + Z.of_nat (List.length (mMsgQueue (self w))) + 1
    < 2 ^ counter_bits ->
  let q := mMsgQueue (self w) in
  exists w' : World,
    Worker_dtor w = Some w' /\
    w' = set_self (set_mWorkThread Joined)
                  (exec (loop_on (q ++ [Message.EXIT])) (exec exit w)) /\
    mMessages (mStats (self w')) =
      mMessages (mStats (self w)) +
      Z.of_nat (List.length (handled (q ++ [Message.EXIT]))) /\
    (~ In Message.EXIT q ->
       mMsgQueue (self w') = [] /\
       mMessages (mStats (self w')) =
         mMessages (mStats (self w)) + Z.of_nat (List.length q) + 1) /\
    (In Message.EXIT q ->
       mMsgQueue (self w') = left_over q ++ [Message.EXIT] /\
       handled (q ++ [Message.EXIT]) = handled q).
Proof.
  intros w Hw Hinv Hroom. cbv zeta.
  remember (mMsgQueue (self w)) as q eqn:Hq0.
  set (we := exec exit w).
  assert (Hqe : mMsgQueue (self we) = q ++ [Message.EXIT])
    by (rewrite Hq0; reflexivity).
  assert (Hte : mWorkThread (self we) = Waiting) by exact Hw.
  assert (Hse : mStats (self we) = mStats (self w)) by reflexivity.
  assert (Hrun : exec thread_run we =
                 set_self (set_mWorkThread Finished)
                          (exec (loop_on (q ++ [Message.EXIT])) we)).
  { rewrite (thread_run_Waiting_world we Hte), Hqe.
    rewrite loop_on_returns_at_EXIT. reflexivity. }
  assert (Hlen : Z.of_nat (List.length (q ++ [Message.EXIT])) =
                 Z.of_nat (List.length q) + 1).
  { rewrite length_app, Nat2Z.inj_add. reflexivity. }
  destruct (loop_on_accounting (q ++ [Message.EXIT]) we) as [HM _];
    [rewrite Hse; exact Hinv | rewrite Hse, Hlen; lia |].
  rewrite Hse in HM.
  destruct (loop_on_outside (q ++ [Message.EXIT]) we) as (_ & Hq & _).
  cbv zeta in Hq.
  set (wl := exec (loop_on (q ++ [Message.EXIT])) we) in *.
  assert (Hq' : mMsgQueue (self wl) = left_over (q ++ [Message.EXIT])).
  { rewrite Hq. destruct q; reflexivity. }
  assert (Hjm : mMsgQueue (self (set_self (set_mWorkThread Joined) wl)) =
                mMsgQueue (self wl)) by reflexivity.
  assert (Hjs : mStats (self (set_self (set_mWorkThread Joined) wl)) =
                mStats (self wl)) by reflexivity.
  exists (set_self (set_mWorkThread Joined) wl).
  rewrite Hjm, Hjs.
  split; [| split; [reflexivity | split; [exact HM | split]]].
  - unfold Worker_dtor, thread_join. fold we. rewrite Hrun. reflexivity.
  - intro Hno. apply not_In_EXIT_iff in Hno.
    destruct (handled_through_EXIT q [] Hno) as [Hh Hl].
    split; [rewrite Hq'; exact Hl |].
    unfold Message in *. rewrite Hh, Hlen in HM. lia.
  - intro Hin. apply In_EXIT_iff in Hin.
    split; [rewrite Hq'; apply left_over_app; exact Hin |].
    apply handled_app. exact Hin.
Qed.

(** ** A dump as the loop handles it *)

(** X12: a DUMP counts itself. When the loop dispatches a DUMP, the record
    shows the message count including that DUMP, the run count unchanged,
    and an active time that already includes the time since this DUMP was
    taken from the mailbox. *)
Theorem dump_counts_itself :
  forall (q : list Message) (w : World),
  0 <= mMessages (mStats (self w)) ->
  mMessages (mStats (self w)) + 1 < 2 ^ counter_bits ->
  let s := mStats (self w) in
  let w1 := exec onBeforeMessage (set_self (set_mMsgQueue q) w) in
  let w2 := exec onDump w1 in
  let shown := eval stats w1 in
  loop_on (Message.DUMP :: q) w = loop_on q (exec onAfterMessage w2) /\
  messages shown = mMessages s + 1 /\
  runs shown = mRuns s /\
  active shown =
    TimeCounter.total (mActive s) +
    (clock (S (S (S (ticks w)))) - clock (S (ticks w))) /\
  idle shown =
    TimeCounter.value (clock (S (S (ticks w))))
                      (TimeCounter.stop (clock (ticks w)) (mIdle s)) /\
  trace w2 =
    trace w ++
    critical_section
      [ "Thread: "; name (self w); endl;
        "Number of tasks ran: "; show_int (mRuns s); endl;
        "Number of messages processed: "; show_int (mMessages s + 1); endl;
        "Time active: "; show_int (active shown); " milliseconds"; endl;
        "Time idle: "; show_int (idle shown); " milliseconds"; endl ]%string.
Proof.
  intros q w H0 Hroom s w1 w2 shown.
  assert (Hf : fetch_add (mMessages s) 1 = mMessages s + 1)
    by (apply fetch_add_small; assumption).
  destruct (onBeforeMessage_effect (set_self (set_mMsgQueue q) w))
    as (Hs1 & Ht1 & _ & _ & Htr1).
  fold w1 in Hs1, Ht1, Htr1.
  change (mStats (self (set_self (set_mMsgQueue q) w))) with s in Hs1.
  change (ticks (set_self (set_mMsgQueue q) w)) with (ticks w) in Hs1, Ht1.
  change (trace (set_self (set_mMsgQueue q) w)) with (trace w) in Htr1.
  destruct (stats_effect w1) as [Hshown _]. fold shown in Hshown.
  rewrite Hs1, Ht1 in Hshown. simpl in Hshown. rewrite Hf in Hshown.
  assert (Hm : messages shown = mMessages s + 1) by (rewrite Hshown; reflexivity).
  assert (Hr : runs shown = mRuns s) by (rewrite Hshown; reflexivity).
  split; [| split; [exact Hm | split; [exact Hr | split; [| split]]]].
  - rewrite loop_on_cons. cbv zeta. fold w1. simpl dispatch.
    rewrite onDump_result. reflexivity.
  - rewrite Hshown. reflexivity.
  - rewrite Hshown. reflexivity.
  - subst w2. rewrite (onDump_trace w1), Htr1. fold shown.
    assert (Hname : name (self w1) = name (self w)).
    { unfold name.
      destruct (onBeforeMessage_outside (set_self (set_mMsgQueue q) w))
        as ((Hn & _) & _).
      fold w1 in Hn. rewrite Hn. reflexivity. }
    rewrite Hname. unfold dump_strings. rewrite Hm, Hr. reflexivity.
Qed.

End Worker.

(** ** Stats *)

(** C8: two snapshots are [==] exactly when their four fields are pairwise
    equal, [!=] is the negation of [==], and [==] is reflexive, symmetric
    and transitive. *)
Theorem Stats_eq_fieldwise_equivalence : forall s1 s2 s3 : Stats,
  (Stats_eq s1 s2 = true <->
   messages s1 = messages s2 /\ runs s1 = runs s2 /\
   idle s1 = idle s2 /\ active s1 = active s2) /\
  (Stats_eq s1 s2 = true <-> s1 = s2) /\
  Stats_neq s1 s2 = negb (Stats_eq s1 s2) /\
  (Stats_neq s1 s2 = true <-> Stats_eq s1 s2 = false) /\
  Stats_eq s1 s1 = true /\
  Stats_eq s1 s2 = Stats_eq s2 s1 /\
  (Stats_eq s1 s2 = true -> Stats_eq s2 s3 = true -> Stats_eq s1 s3 = true).
Proof.
  intros s1 s2 s3.
  assert (Hfields : forall a b : Stats,
            Stats_eq a b = true <->
            messages a = messages b /\ runs a = runs b /\
            idle a = idle b /\ active a = active b).
  { intros a b. unfold Stats_eq. rewrite !andb_true_iff, !Z.eqb_eq. tauto. }
  split; [apply Hfields | split; [| split; [| split; [| split; [| split]]]]].
  - rewrite Hfields. destruct s1, s2; simpl. split.
    + intros (H1 & H2 & H3 & H4). subst. reflexivity.
    + intro H. injection H as H1 H2 H3 H4. auto.
  - reflexivity.
  - unfold Stats_neq. apply negb_true_iff.
  - apply Hfields. auto.
  - unfold Stats_eq.
    rewrite (Z.eqb_sym (messages s1)), (Z.eqb_sym (runs s1)),
      (Z.eqb_sym (idle s1)), (Z.eqb_sym (active s1)).
    reflexivity.
  - rewrite !Hfields. intros (H1 & H2 & H3 & H4) (K1 & K2 & K3 & K4).
    repeat split; congruence.
Qed.

(** ** Task *)

(** C1, as the claim states it: a Task carries a priority and an overload
    of the constructor can set it. Neither holds of [class Task]. *)
Lemma Task_has_no_priority :
  Task.carries_priority = false /\ Task.has_priority_overload = false.
Proof. split; reflexivity. Qed.

(** C1, amended: [task.h] declares the 8-bit priority domain with
    [MinPriority = 0 < DefaultPriority = 127 < MaxPriority = 255], its
    least and greatest values; a Task itself holds a callable, a promise
    and a shared future and nothing else, and its only constructor takes
    the callable alone. *)
Theorem Task_declares_priority_domain_only :
  Task.Priority Task.MinPriority /\
  Task.Priority Task.DefaultPriority /\
  Task.Priority Task.MaxPriority /\
  Task.MinPriority = 0 /\ Task.DefaultPriority = 127 /\ Task.MaxPriority = 255 /\
  Task.MinPriority < Task.DefaultPriority < Task.MaxPriority /\
  (forall p : Z, Task.Priority p <-> Task.MinPriority <= p <= Task.MaxPriority) /\
  map snd Task.data_members = [Task.TyCallable; Task.TyPromise; Task.TySharedFuture] /\
  Task.constructors = [[Task.TyCallable]] /\
  (forall (Callable Promise SharedFuture : Type)
          (t : Task.Task Callable Promise SharedFuture),
     t = Task.mkTask Callable Promise SharedFuture
           (Task.mCallable _ _ _ t) (Task.mPromise _ _ _ t) (Task.mFuture _ _ _ t)).
Proof.
  unfold Task.Priority, Task.Priority_bits, Task.MinPriority,
    Task.DefaultPriority, Task.MaxPriority.
  change (2 ^ 8) with 256.
  repeat match goal with |- _ /\ _ => split end; try lia; try reflexivity.
  intros Callable Promise SharedFuture t. destruct t; reflexivity.
Qed.

(** ** A concrete process *)

(** The pool as a queue of pending task numbers, beside the numbers of the
    tasks that ran. *)
Definition DemoEnv : Type := (list nat * list nat)%type.

Definition demo_Pool_task (_ : unit) (e : DemoEnv) : option nat * DemoEnv :=
  match fst e with
  | [] => (None, e)
  | t :: rest => (Some t, (rest, snd e))
  end.

Definition demo_Task_run (t : nat) (e : DemoEnv) : DemoEnv :=
  (fst e, snd e ++ [t]).

(** A clock that advances 10 ms between two readings. *)
Definition demo_clock (n : nat) : Z := 10 * Z.of_nat n.

(** Worker 3 just constructed, with the messages [q] already sent to it and
    the tasks [pending] in the pool. *)
Definition demo_world (q : list Message) (pending : list nat) : World DemoEnv unit :=
  mkWorld DemoEnv unit (set_mMsgQueue unit q (Worker_ctor unit tt 3))
          (pending, []) 0 [] [].

Definition demo_exec {A : Type} (c : Z -> M DemoEnv unit A)
  (w : World DemoEnv unit) : World DemoEnv unit :=
  exec DemoEnv unit (c 64) w.

Definition demo_onTask : Z -> M DemoEnv unit Result :=
  onTask DemoEnv unit nat demo_Pool_task demo_Task_run.

Definition demo_loop_on (q : list Message) : Z -> M DemoEnv unit LoopExit :=
  fun bits => loop_on DemoEnv unit nat demo_Pool_task demo_Task_run demo_clock bits q.

Definition demo_thread_run : Z -> M DemoEnv unit unit :=
  thread_run DemoEnv unit nat demo_Pool_task demo_Task_run demo_clock.

Definition demo_dtor : World DemoEnv unit -> option (World DemoEnv unit) :=
  Worker_dtor DemoEnv unit nat demo_Pool_task demo_Task_run demo_clock 64.

Definition demo_stats_of (w : World DemoEnv unit) : Stats :=
  eval DemoEnv unit (stats DemoEnv unit demo_clock) w.

(** A new worker whose thread has entered the loop and found no message:
    nothing counted, the idle time runs, the active time does not. *)
Example demo_fresh_stats :
  demo_stats_of (demo_exec demo_thread_run (demo_world [] [])) =
  mkStats 0 0 10 0.
Proof. reflexivity. Qed.

(** The thread of a new worker handles TASK, TASK, DUMP, EXIT with one task
    in the pool: three messages are counted before the dump, one run, and
    the thread finishes. *)
Example demo_thread :
  let w := demo_exec demo_thread_run
             (demo_world [Message.TASK; Message.TASK; Message.DUMP; Message.EXIT] [7%nat]) in
  mWorkThread unit (self _ _ w) = Finished /\
  env _ _ w = ([], [7%nat]) /\
  mMessages (mStats unit (self _ _ w)) = 4 /\
  mRuns (mStats unit (self _ _ w)) = 1 /\
  written (trace _ _ w) =
"Thread: worker[3]
Number of tasks ran: 1
Number of messages processed: 3
Time active: 40 milliseconds
Time idle: 30 milliseconds
"%string.
Proof. vm_compute. repeat split. Qed.



(** ** The theorems at the concrete process *)

(** [onTask] with task 7 pending: the run is counted and the task ran. *)
Lemma onTask_counts_run_witness :
  0 < 64 /\
  mRuns (mStats unit (self _ _ (demo_exec demo_onTask (demo_world [] [7%nat])))) = 1 /\
  env _ _ (demo_exec demo_onTask (demo_world [] [7%nat])) = ([], [7%nat]).
Proof.
  split; [reflexivity |].
  exact (proj1 (onTask_counts_run_iff_task_claimed
                  DemoEnv unit nat demo_Pool_task demo_Task_run demo_clock 64
                  (demo_world [] [7%nat]) eq_refl)
               7%nat eq_refl).
Defined.

(** C3, as the claim states it: [runs <= messages] in every snapshot. The
    thread of worker 3 handles one TASK with task 7 pending while another
    thread calls [stats()]: [load()] reads [mMessages] before the worker
    counts the message (third value of the statistics, both counters 0)
    and [mRuns] after the worker counted the run (fifth value, both
    counters 1). The snapshot shows one run and no message. *)
Lemma concurrent_snapshot_shows_run_without_message :
  let w := demo_exec demo_thread_run (demo_world [Message.TASK] [7%nat]) in
  exists a b : AtomicStats,
    nth_error (history _ _ w) 2 = Some a /\
    nth_error (history _ _ w) 4 = Some b /\
    (mMessages a, mRuns a) = (0, 0) /\
    (mMessages b, mRuns b) = (1, 1) /\
    messages (AtomicStats_load_across a b b b 20 20) = 0 /\
    runs (AtomicStats_load_across a b b b 20 20) = 1 /\
    (runs (AtomicStats_load_across a b b b 20 20) <=?
     messages (AtomicStats_load_across a b b b 20 20)) = false.
Proof.
  cbv zeta. eexists. eexists.
  split; [vm_compute; reflexivity |].
  split; [vm_compute; reflexivity |].
  repeat split.
Qed.

(** With 64-bit counters the message after the 2^64 - 1 st is counted as
    0: the message counter decreased and is below the run counter. *)
Example demo_message_counter_wraps :
  let s := mkAtomicStats (2 ^ 64 - 1) 5 TimeCounter.init TimeCounter.init in
  let w := mkWorld DemoEnv unit
             (set_mStats unit s (Worker_ctor unit tt 3)) ([], []) 0 [] [] in
  let s' := mStats unit (self _ _ (demo_exec
              (onBeforeMessage DemoEnv unit demo_clock) w)) in
  mMessages s' = 0 /\ mRuns s' = 5.
Proof.
  cbv zeta. split; [| reflexivity].
  apply (message_counter_wraps DemoEnv unit demo_clock 64); reflexivity.
Qed.

(** Six messages to a new worker with 64-bit counters; a snapshot that
    loads the first and the last value of the statistics. *)
Lemma stats_counters_monotone_witness :
  let q := [Message.TASK; Message.DUMP; Message.TASK; Message.NOP;
            Message.EXIT; Message.TASK] in
  let w := demo_world q [7%nat] in
  (0 <= mRuns (mStats unit (self _ _ w)) <= mMessages (mStats unit (self _ _ w))) /\
  mMessages (mStats unit (self _ _ w)) + Z.of_nat (List.length q) < 2 ^ 64 /\
  exists l : list AtomicStats,
    history _ _ (demo_exec (demo_loop_on q) w) = history _ _ w ++ l /\
    counters_chain (mStats unit (self _ _ w)) l /\
    mStats unit (self _ _ (demo_exec (demo_loop_on q) w)) =
      last l (mStats unit (self _ _ w)) /\
    (forall a b c d : AtomicStats,
       nth_error (mStats unit (self _ _ w) :: l) 0 = Some a ->
       nth_error (mStats unit (self _ _ w) :: l) (List.length l) = Some b ->
       runs (AtomicStats_load_across a b c d 0 0) -
       messages (AtomicStats_load_across a b c d 0 0) <=
       mMessages b - mMessages a).
Proof.
  cbv zeta.
  assert (H1 : 0 <= 0 <= 0) by lia.
  assert (H2 : 0 + 6 < 2 ^ 64) by reflexivity.
  split; [exact H1 | split; [exact H2 |]].
  destruct (counters_monotone_and_snapshot_lag
              DemoEnv unit nat demo_Pool_task demo_Task_run demo_clock 64
              [Message.TASK; Message.DUMP; Message.TASK; Message.NOP;
               Message.EXIT; Message.TASK]
              (demo_world [Message.TASK; Message.DUMP; Message.TASK; Message.NOP;
                           Message.EXIT; Message.TASK] [7%nat])
              H1 H2) as (l & Hh & Hc & Hs & _ & Hsnap).
  exists l. split; [exact Hh |]. split; [exact Hc |]. split; [exact Hs |].
  intros a b c d Ha Hb.
  exact (proj1 (proj2 (proj2 (proj2 (proj2 (proj2
           (Hsnap 0%nat (List.length l) a b c d 0 0 (Nat.le_0_l _) Ha Hb))))))).
Defined.

(** A worker whose thread waits in the idle state, with a TASK message. *)
Lemma statistics_state_machine_witness :
  let w := demo_exec demo_thread_run (demo_world [] [7%nat]) in
  phase (mStats unit (self _ _ w)) = Some Idle /\
  phase (mStats unit (self _ _ (demo_exec (demo_loop_on [Message.TASK; Message.EXIT]) w))) =
  Some Active.
Proof.
  cbv zeta. split; [reflexivity |].
  exact (proj2 (proj2 (statistics_state_machine
                         DemoEnv unit nat demo_Pool_task demo_Task_run demo_clock 64
                         Message.TASK [Message.TASK; Message.EXIT]
                         (demo_exec demo_thread_run (demo_world [] [7%nat]))))
               eq_refl).
Defined.

(** Destroying a worker whose thread was spawned and has a TASK pending. *)
Lemma destructor_witness :
  let w := demo_world [Message.TASK] [7%nat] in
  (mWorkThread unit (self _ _ w) = Waiting \/
   mWorkThread unit (self _ _ w) = Finished \/
   exists f, mWorkThread unit (self _ _ w) = Spawned f) /\
  exists w', demo_dtor w = Some w' /\ mWorkThread unit (self _ _ w') = Joined.
Proof.
  cbv zeta.
  assert (H : mWorkThread unit (self _ _ (demo_world [Message.TASK] [7%nat])) = Waiting \/
              mWorkThread unit (self _ _ (demo_world [Message.TASK] [7%nat])) = Finished \/
              exists f, mWorkThread unit (self _ _ (demo_world [Message.TASK] [7%nat])) = Spawned f)
    by (right; right; exists LambdaWorkLoop; reflexivity).
  split; [exact H |].
  exact (proj1 (proj2 (proj2 (proj2 (proj2
           (destructor_sends_EXIT_then_joins
              DemoEnv unit nat demo_Pool_task demo_Task_run demo_clock 64
              (demo_world [Message.TASK] [7%nat]) H)))))).
Defined.



(** ** The further properties at the concrete process *)

(** Worker 3 with its thread waiting in the loop and a TASK just sent. *)
Definition demo_waiting_world : World DemoEnv unit :=
  exec DemoEnv unit (send DemoEnv unit Message.TASK)
       (demo_exec demo_thread_run (demo_world [] [7%nat])).

(** Six messages, the fifth an EXIT: five are counted, and one task ran. *)
Lemma loop_counts_witness :
  let q := [Message.TASK; Message.DUMP; Message.TASK; Message.NOP;
            Message.EXIT; Message.TASK] in
  let w := demo_world q [7%nat] in
  (0 <= mRuns (mStats unit (self _ _ w)) <= mMessages (mStats unit (self _ _ w))) /\
  mMessages (mStats unit (self _ _ w)) + Z.of_nat (List.length q) < 2 ^ 64 /\
  mMessages (mStats unit (self _ _ (demo_exec (demo_loop_on q) w))) = 5.
Proof.
  cbv zeta.
  assert (H1 : 0 <= 0 <= 0) by lia.
  assert (H2 : 0 + 6 < 2 ^ 64) by reflexivity.
  split; [exact H1 | split; [exact H2 |]].
  exact (proj1 (loop_counts_each_dispatched_message_once
                  DemoEnv unit nat demo_Pool_task demo_Task_run demo_clock 64
                  [Message.TASK; Message.DUMP; Message.TASK; Message.NOP;
                   Message.EXIT; Message.TASK]
                  (demo_world [Message.TASK; Message.DUMP; Message.TASK; Message.NOP;
                               Message.EXIT; Message.TASK] [7%nat])
                  H1 H2)).
Defined.

(** Worker 3 as thread 1 handles DUMP, NOP, DUMP, EXIT; the TASK behind
    the EXIT is never dispatched. Two records are written. *)
Lemma loop_writes_witness :
  let q := [Message.DUMP; Message.NOP; Message.DUMP; Message.EXIT;
            Message.TASK] in
  let w := demo_world q [7%nat] in
  existsb is_TASK (handled q) = false /\
  exists recs : list (list string),
    trace _ _ (demo_exec (demo_loop_on q) w) =
      trace _ _ w ++ List.concat (map critical_section recs) /\
    List.length recs = 2%nat /\
    env _ _ (demo_exec (demo_loop_on q) w) = ([7%nat], []).
Proof.
  cbv zeta. split; [reflexivity |].
  destruct (loop_writes_only_under_gDumpMutex
              DemoEnv unit nat demo_Pool_task demo_Task_run demo_clock 64
              [Message.DUMP; Message.NOP; Message.DUMP; Message.EXIT;
               Message.TASK]
              (demo_world [Message.DUMP; Message.NOP; Message.DUMP;
                           Message.EXIT; Message.TASK] [7%nat])
              1%nat eq_refl) as (recs & Htr & Hlen & Henv & _).
  exists recs. split; [exact Htr | split; [exact Hlen | exact Henv]].
Defined.

(** The demo clock never goes back; a new worker has handled a TASK, and
    later also a DUMP and a NOP sent behind it. *)
Lemma time_accounting_witness :
  let w := demo_world [] [7%nat] in
  let w0 := demo_exec (fun _ => TimeCounter_start DemoEnv unit demo_clock
                                  AtomicStats_idle) w in
  let w1 := demo_exec (demo_loop_on [Message.TASK]) w0 in
  let w2 := demo_exec (demo_loop_on [Message.TASK; Message.DUMP; Message.NOP]) w0 in
  let s := demo_stats_of w1 in
  (forall n : nat, demo_clock n <= demo_clock (S n)) /\
  mStats unit (self _ _ w) = AtomicStats_init /\
  TimeCounter.total (mIdle (mStats unit (self _ _ w1))) <=
    TimeCounter.total (mIdle (mStats unit (self _ _ w2))) /\
  TimeCounter.total (mActive (mStats unit (self _ _ w1))) <=
    TimeCounter.total (mActive (mStats unit (self _ _ w2))) /\
  0 <= idle s /\ 0 <= active s /\
  idle s + active s <= demo_clock (S (ticks _ _ w1)) - demo_clock (ticks _ _ w).
Proof.
  cbv zeta.
  assert (Hc : forall n : nat, demo_clock n <= demo_clock (S n))
    by (intro n; unfold demo_clock; lia).
  split; [exact Hc | split; [reflexivity |]].
  pose proof (worker_never_accounts_more_time_than_passed
                DemoEnv unit nat demo_Pool_task demo_Task_run demo_clock 64
                Hc (demo_world [] [7%nat])
                [Message.TASK] [Message.DUMP; Message.NOP] eq_refl) as H.
  cbv zeta in H.
  destruct H as (_ & Hi & Ha & _ & _ & Hs).
  split; [exact Hi | split; [exact Ha | exact Hs]].
Defined.

(** Destroying worker 3 while a TASK is pending: the task runs first. *)
Lemma destructor_pending_witness :
  mWorkThread unit (self _ _ demo_waiting_world) = Waiting /\
  exists w' : World DemoEnv unit,
    demo_dtor demo_waiting_world = Some w' /\
    mMsgQueue unit (self _ _ w') = [] /\
    mMessages (mStats unit (self _ _ w')) = 2.
Proof.
  assert (Hw : mWorkThread unit (self _ _ demo_waiting_world) = Waiting)
    by reflexivity.
  assert (H1 : 0 <= mRuns (mStats unit (self _ _ demo_waiting_world))
               <= mMessages (mStats unit (self _ _ demo_waiting_world)))
    by (vm_compute; split; discriminate).
  assert (H2 : mMessages (mStats unit (self _ _ demo_waiting_world)) +
               Z.of_nat (List.length (mMsgQueue unit (self _ _ demo_waiting_world))) + 1
               < 2 ^ 64) by reflexivity.
  split; [exact Hw |].
  destruct (destructor_handles_pending_messages_first
              DemoEnv unit nat demo_Pool_task demo_Task_run demo_clock 64
              demo_waiting_world Hw H1 H2)
    as (w' & Hd & _ & _ & Hno & _).
  exists w'. split; [exact Hd |].
  apply Hno. intros [H | []]. discriminate H.
Defined.

(** The pending task did run before the join returned. *)
Example demo_destructor_runs_pending_task :
  option_map (env DemoEnv unit) (demo_dtor demo_waiting_world) = Some ([], [7%nat]).
Proof. reflexivity. Qed.

(** A DUMP as the first message of worker 3: the record shows one message. *)
Lemma dump_counts_itself_witness :
  let w := demo_exec demo_thread_run (demo_world [] []) in
  0 <= mMessages (mStats unit (self _ _ w)) /\
  mMessages (mStats unit (self _ _ w)) + 1 < 2 ^ 64 /\
  messages (demo_stats_of
              (exec DemoEnv unit (onBeforeMessage DemoEnv unit demo_clock 64)
                    (set_self DemoEnv unit (set_mMsgQueue unit []) w))) = 1.
Proof.
  cbv zeta.
  assert (H1 : 0 <= 0) by lia.
  assert (H2 : 0 + 1 < 2 ^ 64) by reflexivity.
  split; [exact H1 | split; [exact H2 |]].
  exact (proj1 (proj2 (dump_counts_itself
                         DemoEnv unit nat demo_Pool_task demo_Task_run demo_clock 64
                         [] (demo_exec demo_thread_run (demo_world [] []))
                         H1 H2))).
Defined.
